(** * pgs/reader.go: the segment reader of the Presentation Graphic Stream decoder

    A shallow embedding of [SegmentReader.ReadSegment] and of the four body
    parsers it dispatches to, over an explicit model of the [io.Reader] the
    reader wraps, followed by the properties of the decoder. *)

From Stdlib Require Import ZArith Lia.
From Stdlib.Init Require Import Byte.
From Stdlib.Strings Require Import Byte.
From stdpp Require Import base option list gmap.

Local Open Scope Z_scope.

(** ** Errors

    The reader builds its errors with [fmt.Errorf]; one constructor per call
    site keeps the arguments of the format string, and the constructors with an
    [error] argument are the sites that wrap with [%w]. *)

Inductive error : Type :=
  | io_EOF                                  (* io.EOF *)
  | io_ErrUnexpectedEOF                     (* io.ErrUnexpectedEOF *)
  | io_Err (code : nat)                     (* any other error value of the byte source *)
  | ErrSegmentHeader (e : error)            (* segment header: %w *)
  | ErrMagicNumber (magic : Z)              (* magic number not PG 0x5047: %x *)
  | ErrSegmentType (t : Z)                  (* unrecognized segment type: 0x%x *)
  | ErrPCS (e : error)                      (* presentation composition segment: %w *)
  | ErrWDS (e : error)                      (* window definition segment: %w *)
  | ErrPDS (e : error)                      (* palette definition segment: %w *)
  | ErrODS (e : error)                      (* object definition segment: %w *)
  | ErrCompositionState (st : Z)            (* unrecognized composition state: 0x%x *)
  | ErrPaletteUpdateFlag (f : Z)            (* unrecognized palette update flag: 0x%x *)
  | ErrCompositionObject (i n : Z) (e : error)   (* composition object %d/%d: %w *)
  | ErrObjectFlag (i n f : Z)               (* composition object %d/%d: unrecognized flag: 0x%x *)
  | ErrSizeRead (size segmentSize : Z)      (* read %d bytes, %d bytes declared in header *)
  | ErrWindowCount (segmentSize implied count : Z)
                                            (* segment size %d indicates %d windows, but %d specified *)
  | ErrPaletteSize (segmentSize : Z)        (* invalid segment size of %d bytes in header *)
  | ErrPaletteEntry (i n : Z) (e : error)   (* palette entry %d/%d: %w *)
  | ErrIDReused (i n id : Z)                (* palette entry %d/%d: ID %d reused *)
  | ErrSequenceFlag (f : Z)                 (* unrecognized flag: 0x%x *)
  | ErrDataLength.                          (* data length excludes width and height *)

Global Instance error_eq_dec : EqDecision error.
Proof. solve_decision. Defined.

(** [errors.Is err target]: [target] is [err] or occurs on its chain of
    wrapped errors, the operands of the [%w] sites. *)
Fixpoint errors_Is (e target : error) : bool :=
  bool_decide (e = target) ||
  match e with
  | ErrSegmentHeader e' | ErrPCS e' | ErrWDS e' | ErrPDS e' | ErrODS e'
  | ErrCompositionObject _ _ e' | ErrPaletteEntry _ _ e' => errors_Is e' target
  | _ => false
  end.

(** ** The byte source

    [SegmentReader] holds an [io.Reader]. A reader is modelled by the bytes it
    has yet to deliver together with what the interface leaves to it: how
    many bytes each call of [Read] hands over (a call may deliver fewer bytes
    than the buffer holds, even none), the error it reports once the bytes are
    used up, and whether that error already comes with the last bytes or only
    on the call after them. *)

Record Source : Type := mkSource {
  data : list byte;    (* the bytes not yet delivered *)
  sched : list nat;    (* bounds on what the next calls of Read deliver; no bound once used up *)
  eager : bool;        (* the call delivering the last byte reports [term] with it *)
  term : error         (* the error at the end of the bytes; io.EOF for a stream that just ends *)
}.

(** [r.Read(p)] with [len(p) = k]: the bytes stored in [p] and the error. *)
Definition Read (k : nat) (s : Source) : (list byte * option error) * Source :=
  match data s with
  | [] => (([], Some (term s)), s)
  | _ :: _ =>
      let m := match sched s with [] => k | l :: _ => Nat.min l k end in
      let d := take m (data s) in
      let rest := drop m (data s) in
      if eager s && bool_decide (rest = [])
      then ((d, Some (term s)), mkSource [] (tail (sched s)) (eager s) (term s))
      else ((d, None), mkSource rest (tail (sched s)) (eager s) (term s))
  end.

(** The loops over [Read] are written with a budget of iterations; a source
    with schedule [sched] needs at most [length sched + 2] calls. *)
Definition budget (s : Source) : nat := S (S (length (sched s))).

(** [io.ReadAtLeast(r, buf, min)] with [len(buf) = min], the loop
    [for n < min && err == nil { nn, err = r.Read(buf[n:]); n += nn }];
    [buf] is the filled part of the buffer. [None]: budget used up. *)
Fixpoint ReadAtLeast_loop (fuel : nat) (min : nat) (buf : list byte) (err : option error)
    (s : Source) : option ((list byte * option error) * Source) :=
  if (length buf <? min)%nat && bool_decide (err = None) then
    match fuel with
    | O => None
    | S fuel' =>
        let '((d, err'), s') := Read (min - length buf) s in
        ReadAtLeast_loop fuel' min (buf ++ d) err' s'
    end
  else Some ((buf, err), s).

(** [io.ReadFull(r, buf)]: the buffer (zero where nothing was stored) and the
    error after [if n >= min { err = nil } else if n > 0 && err == EOF
    { err = ErrUnexpectedEOF }]. *)
Definition io_ReadFull (size : nat) (s : Source)
    : option ((list byte * option error) * Source) :=
  match ReadAtLeast_loop (budget s) size [] None s with
  | None => None
  | Some ((buf, err), s') =>
      let n := length buf in
      let err :=
        if (size <=? n)%nat then None
        else if (0 <? n)%nat && bool_decide (err = Some io_EOF)
             then Some io_ErrUnexpectedEOF else err in
      Some ((buf ++ replicate (size - n) x00, err), s')
  end.

(** ** Results and the reader monad *)

Inductive outcome (A : Type) : Type :=
  | Ok (a : A)        (* the value returned with a nil error *)
  | Err (e : error)   (* the error returned *)
  | Panic             (* a run-time panic *)
  | Stuck.            (* the budget of a loop was used up; see [ReadSegment_returns] *)
Arguments Ok {A} a.
Arguments Err {A} e.
Arguments Panic {A}.
Arguments Stuck {A}.

Definition M (A : Type) : Type := Source -> outcome A * Source.

(** The call returned to its caller, with a value or an error. *)
Definition returns {A} (r : outcome A * Source) : Prop :=
  match fst r with
  | Ok _ | Err _ => True
  | Panic | Stuck => False
  end.

Definition ret {A} (a : A) : M A := fun s => (Ok a, s).
Definition fail {A} (e : error) : M A := fun s => (Err e, s).
Definition bind {A B} (m : M A) (f : A -> M B) : M B := fun s =>
  match m s with
  | (Ok a, s') => f a s'
  | (Err e, s') => (Err e, s')
  | (Panic, s') => (Panic, s')
  | (Stuck, s') => (Stuck, s')
  end.
(** [if err != nil { return nil, fmt.Errorf(... %w ..., err) }] *)
Definition wrap {A} (w : error -> error) (m : M A) : M A := fun s =>
  match m s with
  | (Err e, s') => (Err (w e), s')
  | r => r
  end.

Notation "'let*' x ':=' m 'in' k" := (bind m (fun x => k))
  (at level 10, x pattern, m at level 200, k at level 200).

(** [binary.Read(r, binary.BigEndian, &v)] for a value of [size] bytes:
    [io.ReadFull] into a fresh buffer, then the fields decoded in order. *)
Definition binary_Read {A} (size : nat) (decode : list byte -> A) : M A := fun s =>
  match io_ReadFull size s with
  | None => (Stuck, s)
  | Some ((_, Some e), s') => (Err e, s')
  | Some ((buf, None), s') => (Ok (decode buf), s')
  end.

(** ** Big-endian fields *)

Definition u8 (b : byte) : Z := Z.of_N (Byte.to_N b).

(** [buf[i]] of a buffer; every use below is within the buffer read. *)
Definition at8 (buf : list byte) (i : nat) : Z := u8 (nth i buf x00).

(** [binary.BigEndian.Uint16(buf[i:])] *)
Definition be16 (buf : list byte) (i : nat) : Z :=
  Z.lor (Z.shiftl (at8 buf i) 8) (at8 buf (i + 1)).

(** [binary.BigEndian.Uint32(buf[i:])] *)
Definition be32 (buf : list byte) (i : nat) : Z :=
  Z.lor (Z.lor (Z.lor (Z.shiftl (at8 buf i) 24) (Z.shiftl (at8 buf (i + 1)) 16))
               (Z.shiftl (at8 buf (i + 2)) 8)) (at8 buf (i + 3)).

(** Modelled from the spec: the type of [ods.ObjectDataLength] and its method
    [Uint32] are declared outside reader.go; the spec has the field as a
    3-byte big-endian total data length. *)
Definition uint24 : Type := (Z * Z * Z)%type.
Definition uint24_Uint32 (v : uint24) : Z :=
  let '(b0, b1, b2) := v in Z.lor (Z.lor (Z.shiftl b0 16) (Z.shiftl b1 8)) b2.

(** ** The constants and the wire records

    reader.go uses the segment type tags, the composition states, the flag
    masks and [Timestamp.Duration] by name only; they are declared in another
    file of the package and are parameters here. *)

Class Constants : Type := {
  pcsType : Z; wdsType : Z; pdsType : Z; odsType : Z; endType : Z;
  Normal : Z; AcquisitionPoint : Z; EpochStart : Z;
  pufTrue : Z;
  croppedForce : Z;
  firstInSequence : Z; lastInSequence : Z;
  Timestamp_Duration : Z -> Z
}.

(** Modelled from the spec: the layouts of the wire records [header], [pcs],
    [pcsCompositionObject], [CompositionObjectCrop], [wds], [Window], [pds],
    [PaletteEntry] and [ods] are declared outside reader.go; the fields are
    those reader.go names, in the order and with the sizes the spec gives
    (13, 11, 8, 8, 1, 9, 2, 5 and 11 bytes). The spec does not place the crop
    flag within the object record; it is put behind the window ID, where the
    format has it, and the statements below name it by its field only. *)
Record header : Type := {
  h_MagicNumber : Z; h_PresentationTime : Z; h_DecodingTime : Z;
  h_SegmentType : Z; h_SegmentSize : Z }.
Definition decode_header (b : list byte) : header :=
  {| h_MagicNumber := be16 b 0; h_PresentationTime := be32 b 2;
     h_DecodingTime := be32 b 6; h_SegmentType := at8 b 10;
     h_SegmentSize := be16 b 11 |}.

Record pcs : Type := {
  pcs_Width : Z; pcs_Height : Z; pcs_FrameRate : Z; pcs_CompositionNumber : Z;
  pcs_CompositionState : Z; pcs_PaletteUpdateFlag : Z; pcs_PaletteID : Z;
  pcs_ObjectCount : Z }.
Definition decode_pcs (b : list byte) : pcs :=
  {| pcs_Width := be16 b 0; pcs_Height := be16 b 2; pcs_FrameRate := at8 b 4;
     pcs_CompositionNumber := be16 b 5; pcs_CompositionState := at8 b 7;
     pcs_PaletteUpdateFlag := at8 b 8; pcs_PaletteID := at8 b 9;
     pcs_ObjectCount := at8 b 10 |}.

Record pcsCompositionObject : Type := {
  pco_ObjectID : Z; pco_WindowID : Z; pco_ObjectCropped : Z; pco_X : Z; pco_Y : Z }.
Definition decode_pcsCompositionObject (b : list byte) : pcsCompositionObject :=
  {| pco_ObjectID := be16 b 0; pco_WindowID := at8 b 2; pco_ObjectCropped := at8 b 3;
     pco_X := be16 b 4; pco_Y := be16 b 6 |}.

Record CompositionObjectCrop : Type := {
  Crop_X : Z; Crop_Y : Z; Crop_Width : Z; Crop_Height : Z }.
Definition decode_CompositionObjectCrop (b : list byte) : CompositionObjectCrop :=
  {| Crop_X := be16 b 0; Crop_Y := be16 b 2; Crop_Width := be16 b 4;
     Crop_Height := be16 b 6 |}.

Record wds : Type := { wds_WindowCount : Z }.
Definition decode_wds (b : list byte) : wds := {| wds_WindowCount := at8 b 0 |}.

Record Window : Type := {
  Window_ID : Z; Window_X : Z; Window_Y : Z; Window_Width : Z; Window_Height : Z }.
Definition decode_Window (b : list byte) : Window :=
  {| Window_ID := at8 b 0; Window_X := be16 b 1; Window_Y := be16 b 3;
     Window_Width := be16 b 5; Window_Height := be16 b 7 |}.

Record pds : Type := { pds_PaletteID : Z; pds_PaletteVersion : Z }.
Definition decode_pds (b : list byte) : pds :=
  {| pds_PaletteID := at8 b 0; pds_PaletteVersion := at8 b 1 |}.

Record PaletteEntry : Type := {
  Entry_ID : Z; Entry_Y : Z; Entry_Cr : Z; Entry_Cb : Z; Entry_A : Z }.
Definition decode_PaletteEntry (b : list byte) : PaletteEntry :=
  {| Entry_ID := at8 b 0; Entry_Y := at8 b 1; Entry_Cr := at8 b 2;
     Entry_Cb := at8 b 3; Entry_A := at8 b 4 |}.

Record ods : Type := {
  ods_ObjectID : Z; ods_ObjectVersion : Z; ods_SequenceFlag : Z;
  ods_ObjectDataLength : uint24; ods_Width : Z; ods_Height : Z }.
Definition decode_ods (b : list byte) : ods :=
  {| ods_ObjectID := be16 b 0; ods_ObjectVersion := at8 b 2; ods_SequenceFlag := at8 b 3;
     ods_ObjectDataLength := (at8 b 4, at8 b 5, at8 b 6);
     ods_Width := be16 b 7; ods_Height := be16 b 9 |}.

(** ** The decoded values *)

Record CompositionObject : Type := {
  CO_ObjectID : Z; CO_WindowID : Z; CO_X : Z; CO_Y : Z;
  CO_Crop : option CompositionObjectCrop }.

Record PresentationComposition : Type := {
  PC_Width : Z; PC_Height : Z; PC_FrameRate : Z; PC_CompositionNumber : Z;
  PC_CompositionState : Z; PC_PaletteUpdate : bool; PC_PaletteID : Z;
  PC_Objects : list CompositionObject }.

Record Palette : Type := {
  Palette_ID : Z; Palette_Version : Z; Palette_Entries : list PaletteEntry }.

Record Object : Type := {
  Object_ID : Z; Object_Version : Z; Object_First : bool; Object_Last : bool;
  Object_Width : Z; Object_Height : Z; Object_ObjectData : list byte }.

(** [Segment.Data] is an interface value: one of the four decoded bodies, or
    nil for the end marker. *)
Inductive SegmentData : Type :=
  | DataNil
  | DataPresentationComposition (pc : PresentationComposition)
  | DataWindows (w : list Window)
  | DataPalette (p : Palette)
  | DataObject (o : Object).

Record Segment : Type := {
  PresentationTime : Z; DecodingTime : Z; Data : SegmentData }.

(** ** The reader *)

Section Reader.
Context {K : Constants}.

(** The body of [for i := range objects] in [readPresentationComposition]:
    the object stored at [objects[i]] and the updated [size]. *)
Definition readCompositionObject (i : nat) (count : Z) (size : Z)
    : M (CompositionObject * Z) :=
  let* obj := wrap (ErrCompositionObject (Z.of_nat i + 1) count)
                 (binary_Read 8 decode_pcsCompositionObject) in
  let o := {| CO_ObjectID := pco_ObjectID obj; CO_WindowID := pco_WindowID obj;
              CO_X := pco_X obj; CO_Y := pco_Y obj; CO_Crop := None |} in
  if bool_decide (Z.ldiff (pco_ObjectCropped obj) croppedForce ≠ 0) then
    fail (ErrObjectFlag (Z.of_nat i + 1) count (pco_ObjectCropped obj))
  else if bool_decide (pco_ObjectCropped obj = croppedForce) then
    let* crop := binary_Read 8 decode_CompositionObjectCrop in
    ret ({| CO_ObjectID := pco_ObjectID obj; CO_WindowID := pco_WindowID obj;
            CO_X := pco_X obj; CO_Y := pco_Y obj; CO_Crop := Some crop |},
         size + 8 + 8)
  else ret (o, size + 8).

(** The loop itself, [todo] iterations from index [i] on; [objects] are the
    elements of the slice assigned so far. *)
Fixpoint readCompositionObjects (todo : nat) (i : nat) (count : Z)
    (objects : list CompositionObject) (size : Z) : M (list CompositionObject * Z) :=
  match todo with
  | O => ret (objects, size)
  | S todo' =>
      let* (o, size') := readCompositionObject i count size in
      readCompositionObjects todo' (S i) count (objects ++ [o]) size'
  end.

Definition readPresentationComposition (segmentSize : Z) : M PresentationComposition :=
  let* p := binary_Read 11 decode_pcs in
  if negb (bool_decide (pcs_CompositionState p = Normal)
           || bool_decide (pcs_CompositionState p = AcquisitionPoint)
           || bool_decide (pcs_CompositionState p = EpochStart)) then
    fail (ErrCompositionState (pcs_CompositionState p))
  else if bool_decide (Z.ldiff (pcs_PaletteUpdateFlag p) pufTrue ≠ 0) then
    fail (ErrPaletteUpdateFlag (pcs_PaletteUpdateFlag p))
  else
    let* (objects, size) :=
       readCompositionObjects (Z.to_nat (pcs_ObjectCount p)) 0 (pcs_ObjectCount p) [] 11 in
    if bool_decide (size ≠ segmentSize) then fail (ErrSizeRead size segmentSize)
    else ret {| PC_Width := pcs_Width p; PC_Height := pcs_Height p;
                PC_FrameRate := pcs_FrameRate p;
                PC_CompositionNumber := pcs_CompositionNumber p;
                PC_CompositionState := pcs_CompositionState p;
                PC_PaletteUpdate := bool_decide (Z.land (pcs_PaletteUpdateFlag p) pufTrue ≠ 0);
                PC_PaletteID := pcs_PaletteID p;
                PC_Objects := objects |}.

(** [for i := range windows] in [readWindows]. *)
Fixpoint readWindowList (todo : nat) (windows : list Window) : M (list Window) :=
  match todo with
  | O => ret windows
  | S todo' =>
      let* w := binary_Read 9 decode_Window in
      readWindowList todo' (windows ++ [w])
  end.

(** [uint16(wds.WindowCount)*9+1], in 16 bits. *)
Definition windowsSize (count : Z) : Z := (count * 9 + 1) mod 65536.

Definition readWindows (segmentSize : Z) : M (list Window) :=
  let* w := binary_Read 1 decode_wds in
  if bool_decide (segmentSize ≠ windowsSize (wds_WindowCount w)) then
    fail (ErrWindowCount segmentSize (windowsSize (wds_WindowCount w)) (wds_WindowCount w))
  else readWindowList (Z.to_nat (wds_WindowCount w)) [].

(** [for i := range entries] in [readPalette]; [ids] is the map of the IDs
    seen, used as a set. *)
Fixpoint readPaletteEntries (todo : nat) (i : nat) (n : Z)
    (entries : list PaletteEntry) (ids : gset Z) : M (list PaletteEntry) :=
  match todo with
  | O => ret entries
  | S todo' =>
      let* e := wrap (ErrPaletteEntry (Z.of_nat i) n) (binary_Read 5 decode_PaletteEntry) in
      if bool_decide (Entry_ID e ∈ ids) then fail (ErrIDReused (Z.of_nat i) n (Entry_ID e))
      else readPaletteEntries todo' (S i) n (entries ++ [e]) ({[Entry_ID e]} ∪ ids)
  end.

(** [(segmentSize - 2) / 5], in 16 bits. *)
Definition paletteCount (segmentSize : Z) : Z := ((segmentSize - 2) mod 65536) / 5.

Definition readPalette (segmentSize : Z) : M Palette :=
  if bool_decide (segmentSize mod 5 ≠ 2) then fail (ErrPaletteSize segmentSize)
  else
    let* p := binary_Read 2 decode_pds in
    let n := paletteCount segmentSize in
    let* entries := readPaletteEntries (Z.to_nat n) 0 n [] ∅ in
    ret {| Palette_ID := pds_PaletteID p; Palette_Version := pds_PaletteVersion p;
           Palette_Entries := entries |}.

(** [for n < dataLen { n0, err := sr.r.Read(data[n:]); ... n += n0 }] in
    [readObject]; [buf] is [data[:n]]. *)
Fixpoint readData_loop (fuel : nat) (dataLen : nat) (buf : list byte) : M (list byte) :=
  fun s =>
  if (length buf <? dataLen)%nat then
    match fuel with
    | O => (Stuck, s)
    | S fuel' =>
        match Read (dataLen - length buf) s with
        | ((_, Some err), s') => (Err err, s')
        | ((d, None), s') => readData_loop fuel' dataLen (buf ++ d) s'
        end
    end
  else (Ok buf, s).

Definition readData (dataLen : nat) : M (list byte) :=
  fun s => readData_loop (budget s) dataLen [] s.

Definition readObject (segmentSize : Z) : M Object :=
  let* o := binary_Read 11 decode_ods in
  if bool_decide (Z.ldiff (ods_SequenceFlag o) (Z.lor firstInSequence lastInSequence) ≠ 0) then
    fail (ErrSequenceFlag (ods_SequenceFlag o))
  else
    let dataLen := uint24_Uint32 (ods_ObjectDataLength o) - 4 in
    if bool_decide (dataLen < 0) then fail ErrDataLength
    else
      let* d := readData (Z.to_nat dataLen) in
      ret {| Object_ID := ods_ObjectID o; Object_Version := ods_ObjectVersion o;
             Object_First := bool_decide (Z.land (ods_SequenceFlag o) firstInSequence ≠ 0);
             Object_Last := bool_decide (Z.land (ods_SequenceFlag o) lastInSequence ≠ 0);
             Object_Width := ods_Width o; Object_Height := ods_Height o;
             Object_ObjectData := d |}.

Definition knownType (t : Z) : bool :=
  bool_decide (t = pcsType) || bool_decide (t = wdsType) || bool_decide (t = pdsType)
  || bool_decide (t = odsType) || bool_decide (t = endType).

Definition ReadSegment : M Segment :=
  let* h := wrap (fun err => if bool_decide (err = io_EOF) then err else ErrSegmentHeader err)
               (binary_Read 13 decode_header) in
  if bool_decide (h_MagicNumber h ≠ 0x5047) then fail (ErrMagicNumber (h_MagicNumber h))
  else if negb (knownType (h_SegmentType h)) then fail (ErrSegmentType (h_SegmentType h))
  else
    let seg := fun d => {| PresentationTime := Timestamp_Duration (h_PresentationTime h);
                           DecodingTime := Timestamp_Duration (h_DecodingTime h);
                           Data := d |} in
    if bool_decide (h_SegmentType h = pcsType) then
      let* pc := wrap ErrPCS (readPresentationComposition (h_SegmentSize h)) in
      ret (seg (DataPresentationComposition pc))
    else if bool_decide (h_SegmentType h = wdsType) then
      let* w := wrap ErrWDS (readWindows (h_SegmentSize h)) in
      ret (seg (DataWindows w))
    else if bool_decide (h_SegmentType h = pdsType) then
      let* p := wrap ErrPDS (readPalette (h_SegmentSize h)) in
      ret (seg (DataPalette p))
    else if bool_decide (h_SegmentType h = odsType) then
      let* o := wrap ErrODS (readObject (h_SegmentSize h)) in
      ret (seg (DataObject o))
    else if bool_decide (h_SegmentType h = endType) then ret (seg DataNil)
    else fun s => (Panic, s).

End Reader.

(** The values of the Blu-ray format for the constants, for the examples
    below: the type tags 0x14 to 0x17 and 0x80, the composition states 0x00,
    0x40 and 0x80, the flag bits 0x80 and 0x40, and a time stamp in ticks of
    90 kHz turned into nanoseconds. *)
Definition PGS : Constants := {|
  pcsType := 0x16; wdsType := 0x17; pdsType := 0x14; odsType := 0x15; endType := 0x80;
  Normal := 0x00; AcquisitionPoint := 0x40; EpochStart := 0x80;
  pufTrue := 0x80;
  croppedForce := 0x40;
  firstInSequence := 0x80; lastInSequence := 0x40;
  Timestamp_Duration := fun t => t * 1000000000 / 90000
|}.

(** A source that delivers [bs] as fully as each buffer allows and reports
    io.EOF on the call after the last byte, as [bytes.Reader] does. *)
Definition bytesReader (bs : list byte) : Source := mkSource bs [] false io_EOF.

Definition croppedBody : list byte :=
  [x07; x80; x04; x38; x10; x00; x01; x80; x00; x00; x01;
   x00; x00; x00; x40; x00; x10; x00; x20;
   x00; x01; x00; x02; x00; x30; x00; x40].

(** One window; a palette with one entry of ID 5; a palette with two
    entries of ID 5. *)
Definition windowBody : list byte :=
  [x01; x00; x00; x10; x00; x20; x00; x30; x00; x40].
Definition paletteOne : list byte := [x01; x02; x05; x10; x20; x30; x40].
Definition paletteTwice : list byte :=
  [x01; x02; x05; x10; x20; x30; x40; x05; x11; x21; x31; x41].

(** An end marker that declares a body of 5 bytes, with 2 bytes after it. *)
Definition endStream : list byte :=
  [x50; x47; x00; x00; x00; x5a; x00; x00; x00; x5a; x80; x00; x05; xaa; xbb].

(** An object segment under [PGS]: the header (type 0x15, body size 13), the
    object record (ID 1, version 0, first and last in sequence, total data
    length 6, width 1, height 1) and the 2 bytes of its payload. *)
Definition objectStream : list byte :=
  [x50; x47; x00; x00; x00; x5a; x00; x00; x00; x5a; x15; x00; x0d;
   x00; x01; x00; xc0; x00; x00; x06; x00; x01; x00; x01;
   xaa; xbb].

(** ** What a run of reads leaves of the source

    The schedule left after the calls of [Read] that gather [k] bytes, or as
    many as the [len] bytes of the source allow: one bound is used up by each
    call that meets bytes. *)
Fixpoint sched_after (sch : list nat) (k len : nat) : list nat :=
  match sch with
  | [] => []
  | l :: sch' =>
      if (k =? 0)%nat || (len =? 0)%nat then sch
      else let m := Nat.min (Nat.min l k) len in sched_after sch' (k - m) (len - m)
  end.

(** The source once [k] bytes, or all of them if there are fewer, are read. *)
Definition advance (k : nat) (s : Source) : Source :=
  mkSource (drop k (data s)) (sched_after (sched s) k (length (data s))) (eager s) (term s).

(** A bound on the calls of [Read] a loop makes to gather [k] bytes. *)
Definition reads_needed (k : nat) (s : Source) : nat :=
  if (k =? 0)%nat then 0%nat
  else (length (sched s) +
        (if (k <=? length (data s))%nat || (length (data s) =? 0)%nat then 1 else 2))%nat.

(** The error of [io.ReadFull] on a source that ends before the buffer is full. *)
Definition shortRead (s : Source) : error :=
  match data s with
  | [] => term s
  | _ :: _ => if bool_decide (term s = io_EOF) then io_ErrUnexpectedEOF else term s
  end.

(** ** Vocabulary of the statements *)

Section Vocabulary.
Context {K : Constants}.

(** The header the next call of [ReadSegment] decodes. *)
Definition nextHeader (s : Source) : header := decode_header (take 13 (data s)).

(** The segment built from header [h] and body [d]. *)
Definition segmentOf (h : header) (d : SegmentData) : Segment :=
  {| PresentationTime := Timestamp_Duration (h_PresentationTime h);
     DecodingTime := Timestamp_Duration (h_DecodingTime h);
     Data := d |}.

(** The [Object] built from the wire record [o] and the payload [d]. *)
Definition objectOf (o : ods) (d : list byte) : Object :=
  {| Object_ID := ods_ObjectID o; Object_Version := ods_ObjectVersion o;
     Object_First := bool_decide (Z.land (ods_SequenceFlag o) firstInSequence ≠ 0);
     Object_Last := bool_decide (Z.land (ods_SequenceFlag o) lastInSequence ≠ 0);
     Object_Width := ods_Width o; Object_Height := ods_Height o;
     Object_ObjectData := d |}.

(** The wire record the next call of [readObject] decodes, and the total
    data length it declares. *)
Definition nextOds (s : Source) : ods := decode_ods (take 11 (data s)).
Definition totalDataLength (s : Source) : Z :=
  uint24_Uint32 (ods_ObjectDataLength (nextOds s)).

(** The source [s] with the two bytes of the body size of its next header
    overwritten. *)
Definition withSegmentSize (hi lo : byte) (s : Source) : Source :=
  mkSource (take 11 (data s) ++ [hi; lo] ++ drop 13 (data s)) (sched s) (eager s) (term s).

(** The wire records the next call of [readPresentationComposition],
    [readWindows] and [readPalette] decode first. *)
Definition nextPcs (s : Source) : pcs := decode_pcs (take 11 (data s)).
Definition nextWds (s : Source) : wds := decode_wds (take 1 (data s)).
Definition nextPds (s : Source) : pds := decode_pds (take 2 (data s)).

(** The [PresentationComposition] built from the wire record [p] and the
    objects [objects]. *)
Definition compositionOf (p : pcs) (objects : list CompositionObject)
    : PresentationComposition :=
  {| PC_Width := pcs_Width p; PC_Height := pcs_Height p;
     PC_FrameRate := pcs_FrameRate p;
     PC_CompositionNumber := pcs_CompositionNumber p;
     PC_CompositionState := pcs_CompositionState p;
     PC_PaletteUpdate := bool_decide (Z.land (pcs_PaletteUpdateFlag p) pufTrue ≠ 0);
     PC_PaletteID := pcs_PaletteID p;
     PC_Objects := objects |}.

(** The [CompositionObject] built from the wire record [obj] and the crop
    record read after it, if any. *)
Definition compositionObjectOf (obj : pcsCompositionObject)
    (crop : option CompositionObjectCrop) : CompositionObject :=
  {| CO_ObjectID := pco_ObjectID obj; CO_WindowID := pco_WindowID obj;
     CO_X := pco_X obj; CO_Y := pco_Y obj; CO_Crop := crop |}.

(** The object record the next round of the loop of
    [readPresentationComposition] decodes. *)
Definition nextObject (s : Source) : pcsCompositionObject :=
  decode_pcsCompositionObject (take 8 (data s)).

(** The composition state is one of the three the reader knows. *)
Definition legalState (st : Z) : Prop :=
  st = Normal ∨ st = AcquisitionPoint ∨ st = EpochStart.

(** A decoded object has a crop record. *)
Definition cropped (o : CompositionObject) : bool :=
  match CO_Crop o with Some _ => true | None => false end.

(** 11 + 8 × the number of objects + 8 × the number of cropped objects. *)
Definition compositionSize (objects : list CompositionObject) : Z :=
  11 + 8 * Z.of_nat (length objects) + 8 * Z.of_nat (length (filter (λ o, cropped o = true) objects)).

(** The crop flags of the first [n] object records of the bytes [d], each
    record followed by a crop record if its flag is [croppedForce]; the
    list ends early where [d] ends inside a record. *)
Fixpoint objectFlags (n : nat) (d : list byte) : list Z :=
  match n with
  | O => []
  | S n' =>
      if (length d <? 8)%nat then []
      else
        let f := pco_ObjectCropped (decode_pcsCompositionObject (take 8 d)) in
        f :: (if bool_decide (f = croppedForce)
              then (if (length d <? 16)%nat then [] else objectFlags n' (drop 16 d))
              else objectFlags n' (drop 8 d))
  end.

(** The first [n] palette entries of the bytes [d], 5 bytes each. *)
Fixpoint paletteBody (n : nat) (d : list byte) : list PaletteEntry :=
  match n with
  | O => []
  | S n' => decode_PaletteEntry (take 5 d) :: paletteBody n' (drop 5 d)
  end.

End Vocabulary.

(** ** Vocabulary of the further statements *)

Section MoreVocabulary.
Context {K : Constants}.

(** Two sources deliver the same bytes and end the same way; they may split
    the bytes over their calls of [Read] differently. *)
Definition sameBytes (s1 s2 : Source) : Prop :=
  data s1 = data s2 ∧ eager s1 = eager s2 ∧ term s1 = term s2.

(** Two runs return the same and leave sources that agree in that way. *)
Definition sameRun {A} (r1 r2 : outcome A * Source) : Prop :=
  fst r1 = fst r2 ∧ sameBytes (snd r1) (snd r2).

(** A computation that cannot tell such sources apart. *)
Definition respects {A} (m : M A) : Prop :=
  ∀ s1 s2, sameBytes s1 s2 → sameRun (m s1) (m s2).

(** A computation that leaves the way the source ends as it was. *)
Definition keepsEnd {A} (m : M A) : Prop :=
  ∀ s, eager (snd (m s)) = eager s ∧ term (snd (m s)) = term s.

(** The first [n] window records of the bytes [d], 9 bytes each. *)
Fixpoint windowRecords (n : nat) (d : list byte) : list Window :=
  match n with
  | O => []
  | S n' => decode_Window (take 9 d) :: windowRecords n' (drop 9 d)
  end.

(** The objects of the first [n] object records of the bytes [d], each
    record followed by its crop record if its flag is [croppedForce]. *)
Fixpoint objectRecords (n : nat) (d : list byte) : list CompositionObject :=
  match n with
  | O => []
  | S n' =>
      let obj := decode_pcsCompositionObject (take 8 d) in
      if bool_decide (pco_ObjectCropped obj = croppedForce)
      then compositionObjectOf obj (Some (decode_CompositionObjectCrop (take 8 (drop 8 d))))
           :: objectRecords n' (drop 16 d)
      else compositionObjectOf obj None :: objectRecords n' (drop 8 d)
  end.

(** The bytes the first [n] object records of [d] take, crop records
    included. *)
Definition objectsLength (n : nat) (d : list byte) : nat :=
  (8 * n + 8 * length (filter (λ o, cropped o = true) (objectRecords n d)))%nat.

(** The error of [binary.Read] when the source ends with [t] and has [left]
    bytes of the record to read. *)
Definition shortReadAt (left : nat) (t : error) : error :=
  if (left =? 0)%nat then t
  else if bool_decide (t = io_EOF) then io_ErrUnexpectedEOF else t.

(** The number of bytes [ReadSegment] reads behind the header of the next
    segment when it decodes it: the declared body size for the three kinds
    that check it, the object record and the payload for an object segment,
    nothing for an end marker. *)
Definition bodyLength (s : Source) : Z :=
  let h := nextHeader s in
  if bool_decide (h_SegmentType h = pcsType) || bool_decide (h_SegmentType h = wdsType)
     || bool_decide (h_SegmentType h = pdsType)
  then h_SegmentSize h
  else if bool_decide (h_SegmentType h = odsType) then 7 + totalDataLength (advance 13 s)
  else 0.

(** The wrapper [ReadSegment] puts around the error of the body parser of a
    segment with type tag [t]. *)
Definition segmentError (t : Z) : error → error :=
  if bool_decide (t = pcsType) then ErrPCS
  else if bool_decide (t = wdsType) then ErrWDS
  else if bool_decide (t = pdsType) then ErrPDS
  else ErrODS.

End MoreVocabulary.

(** * Properties *)

(** ** The byte source and the reads *)

Lemma sched_after_0_l sch len : sched_after sch 0 len = sch.
Proof. by destruct sch. Qed.

Lemma sched_after_0_r sch k : sched_after sch k 0 = sch.
Proof. destruct sch; [done|]. simpl. by rewrite orb_true_r. Qed.

Lemma advance_0 s : advance 0 s = s.
Proof. destruct s. unfold advance. simpl. by rewrite sched_after_0_l. Qed.

Lemma advance_nil k s : data s = [] → advance k s = s.
Proof.
  destruct s as [d sch e t]. simpl. intros ->. unfold advance. simpl.
  by rewrite drop_nil, sched_after_0_r.
Qed.

(** One call of [Read] on a source that still has bytes. *)
Lemma Read_some k s :
  data s ≠ [] →
  let m := Nat.min (match sched s with [] => k | l :: _ => Nat.min l k end) (length (data s)) in
  Read k s =
    if eager s && (m =? length (data s))%nat
    then ((take m (data s), Some (term s)), mkSource [] (tail (sched s)) (eager s) (term s))
    else ((take m (data s), None),
          mkSource (drop m (data s)) (tail (sched s)) (eager s) (term s)).
Proof.
  intros Hne. unfold Read. destruct (data s) as [|b d] eqn:Hd; [done|].
  set (m0 := match sched s with [] => k | l :: _ => Nat.min l k end).
  cbv zeta.
  assert (Hrest : bool_decide (drop m0 (b :: d) = []) = (Nat.min m0 (length (b :: d)) =? length (b :: d))%nat).
  { case_bool_decide as Hnil; destruct (Nat.eqb_spec (Nat.min m0 (length (b :: d))) (length (b :: d)));
      try done; exfalso.
    - apply drop_nil_inv in Hnil. lia.
    - apply Hnil, drop_ge. lia. }
  rewrite Hrest.
  destruct (Nat.le_gt_cases m0 (length (b :: d))) as [Hle|Hgt].
  - by rewrite Nat.min_l by done.
  - rewrite (Nat.min_r m0) by lia. rewrite Nat.eqb_refl.
    rewrite (take_ge _ m0), (drop_ge _ m0), take_ge, drop_ge by lia. done.
Qed.

(** The loop of [io.ReadAtLeast] from a buffer filled up to [buf]: it stops
    within the budget, with the bytes the source had for the rest of the
    buffer, and with the error of the source if those were too few. *)
Lemma ReadAtLeast_loop_spec fuel : ∀ n buf s,
  (length buf ≤ n)%nat →
  (reads_needed (n - length buf) s ≤ fuel)%nat →
  ∃ err,
    ReadAtLeast_loop fuel n buf None s
      = Some ((buf ++ take (n - length buf) (data s), err), advance (n - length buf) s)
    ∧ ((length (data s) < n - length buf)%nat → err = Some (term s)).
Proof.
  assert (Hfull : ∀ f n buf s, length buf = n → ∃ err,
    ReadAtLeast_loop f n buf None s
      = Some ((buf ++ take (n - length buf) (data s), err), advance (n - length buf) s)
    ∧ ((length (data s) < n - length buf)%nat → err = Some (term s))).
  { intros f n buf s Hn. exists None. replace (n - length buf)%nat with 0%nat by lia.
    rewrite take_0, app_nil_r, advance_0. split; [|lia].
    destruct f; simpl; by destruct (Nat.ltb_spec (length buf) n); [lia|]. }
  induction fuel as [|fuel IH]; intros n buf s Hbuf Hfuel;
    (destruct (decide (length buf = n)) as [|Hpart]; [by apply Hfull|]);
    unfold reads_needed in Hfuel;
    (destruct (Nat.eqb_spec (n - length buf) 0) as [|_]; [lia|]).
  { exfalso. destruct (_ || _); lia. }
  cbn [ReadAtLeast_loop].
  destruct (Nat.ltb_spec (length buf) n) as [Hlt|]; [|lia]. cbn [andb bool_decide decide_rel].
  rewrite bool_decide_eq_true_2 by done.
  set (k := (n - length buf)%nat) in *.
  destruct (data s) as [|b d] eqn:Hd.
  { unfold Read. rewrite Hd. exists (Some (term s)).
    rewrite take_nil, advance_nil by done. split; [|done].
    destruct fuel; simpl; by rewrite andb_false_r. }
  rewrite Read_some by (by rewrite Hd). rewrite Hd.
  set (len := length (b :: d)) in *.
  set (m := Nat.min _ len).
  assert (Hm : (m ≤ k ∧ m ≤ len ∧ 0 < len)%nat).
  { subst m len. simpl. destruct (sched s); lia. }
  assert (Hadv : ∀ r, (r = k - m)%nat →
     sched_after (tail (sched s)) r (len - m) = sched_after (sched s) k len).
  { intros r ->. subst m. destruct (sched s) as [|l sch]; [done|]. cbn [tail sched_after].
    destruct (Nat.eqb_spec k 0); [lia|]. destruct (Nat.eqb_spec len 0); [lia|]. done. }
  destruct (eager s && (m =? len)%nat) eqn:Heager.
  - apply andb_true_iff in Heager as [_ Hml%Nat.eqb_eq].
    exists (Some (term s)). split; [|done].
    assert (Hstop : ∀ f b' s', ReadAtLeast_loop f n b' (Some (term s)) s'
                               = Some ((b', Some (term s)), s')).
    { intros [|f] b' s'; simpl; by rewrite andb_false_r. }
    rewrite Hstop. rewrite !take_ge by lia. do 2 f_equal.
    unfold advance. rewrite Hd. rewrite drop_ge by (fold len; lia). f_equal.
    fold len. rewrite <- (Hadv (k - m)%nat) by done.
    replace (len - m)%nat with 0%nat by lia. by rewrite sched_after_0_r.
  - set (s' := mkSource (drop m (b :: d)) (tail (sched s)) (eager s) (term s)).
    assert (Hlen' : length (data s') = (len - m)%nat) by (subst s'; simpl; apply length_drop).
    assert (Hbuf' : length (buf ++ take m (b :: d)) = (length buf + m)%nat).
    { rewrite length_app, length_take. fold len. lia. }
    destruct (IH n (buf ++ take m (b :: d)) s') as (err & Heq & Herr).
    { lia. }
    { unfold reads_needed. rewrite Hbuf', Hlen'. subst s'. simpl.
      destruct (Nat.eqb_spec (n - (length buf + m)) 0); [lia|].
      destruct (sched s) as [|l sch]; simpl in *.
      - assert (m = Nat.min k len) by (subst m; done).
        destruct (Nat.leb_spec k len), (Nat.leb_spec (n - (length buf + m)) (len - m)),
          (Nat.eqb_spec len 0), (Nat.eqb_spec (len - m) 0); simpl in *; lia.
      - destruct (Nat.leb_spec k len), (Nat.leb_spec (n - (length buf + m)) (len - m)),
          (Nat.eqb_spec len 0), (Nat.eqb_spec (len - m) 0); simpl in *; lia. }
    exists err. rewrite Heq, Hbuf'. split.
    + do 2 f_equal.
      * rewrite <- app_assoc. f_equal. subst s'. simpl.
        replace (n - (length buf + m))%nat with (k - m)%nat by lia.
        rewrite take_take_drop. by replace (m + (k - m))%nat with k by lia.
      * unfold advance. rewrite Hlen'. subst s'. simpl. rewrite Hd. fold len.
        rewrite drop_drop. f_equal; [f_equal; lia|]. apply Hadv. lia.
    + intros Hshort. apply Herr. lia.
Qed.

Lemma reads_needed_budget k s : (reads_needed k s ≤ budget s)%nat.
Proof. unfold reads_needed, budget. destruct (k =? 0)%nat; [lia|]. destruct (_ || _); lia. Qed.

(** [binary.Read] of a record the source still holds in full: the record
    is decoded from the next [size] bytes, which are consumed. *)
Lemma binary_Read_ok {A} (size : nat) (decode : list byte → A) s :
  (size ≤ length (data s))%nat →
  binary_Read size decode s = (Ok (decode (take size (data s))), advance size s).
Proof.
  intros Hlen. unfold binary_Read, io_ReadFull.
  destruct (ReadAtLeast_loop_spec (budget s) size [] s) as (err & -> & _).
  { simpl. lia. }
  { apply reads_needed_budget. }
  simpl. rewrite Nat.sub_0_r, length_take_le by done.
  rewrite Nat.leb_refl, Nat.sub_diag. simpl. by rewrite app_nil_r.
Qed.

(** [binary.Read] of a record the source ends before: the error of the
    source if no byte was left, io.ErrUnexpectedEOF in place of io.EOF
    otherwise; the bytes that were left are consumed. *)
Lemma binary_Read_short {A} (size : nat) (decode : list byte → A) s :
  (length (data s) < size)%nat →
  binary_Read size decode s = (Err (shortRead s), advance size s).
Proof.
  intros Hlen. unfold binary_Read, io_ReadFull.
  destruct (ReadAtLeast_loop_spec (budget s) size [] s) as (err & -> & Herr).
  { simpl. lia. }
  { apply reads_needed_budget. }
  simpl in *. rewrite Nat.sub_0_r in *. rewrite (Herr Hlen), take_ge by lia.
  destruct (Nat.leb_spec size (length (data s))); [lia|].
  unfold shortRead. destruct (data s) as [|b d]; simpl; [done|].
  repeat case_bool_decide; congruence.
Qed.

(** The payload loop of [readObject] from a buffer filled up to [buf]. It
    returns the error of the source when the source has too few bytes, and
    also when the call of [Read] that completes the buffer reports the
    error along with the last bytes of the source. *)
Lemma readData_loop_spec fuel : ∀ n buf s,
  (length buf ≤ n)%nat →
  (reads_needed (n - length buf) s ≤ fuel)%nat →
  readData_loop fuel n buf s =
    ((if (n - length buf =? 0)%nat then Ok buf
      else if (length (data s) <? n - length buf)%nat
              || (eager s && (length (data s) =? n - length buf)%nat)
           then Err (term s)
           else Ok (buf ++ take (n - length buf) (data s))),
     advance (n - length buf) s).
Proof.
  assert (Hfull : ∀ f n buf s, length buf = n →
    readData_loop f n buf s =
      ((if (n - length buf =? 0)%nat then Ok buf
        else if (length (data s) <? n - length buf)%nat
                || (eager s && (length (data s) =? n - length buf)%nat)
             then Err (term s)
             else Ok (buf ++ take (n - length buf) (data s))),
       advance (n - length buf) s)).
  { intros f n buf s Hn. replace (n - length buf)%nat with 0%nat by lia.
    rewrite advance_0. destruct f; simpl; by destruct (Nat.ltb_spec (length buf) n); [lia|]. }
  induction fuel as [|fuel IH]; intros n buf s Hbuf Hfuel;
    (destruct (decide (length buf = n)) as [|Hpart]; [by apply Hfull|]);
    unfold reads_needed in Hfuel;
    (destruct (Nat.eqb_spec (n - length buf) 0) as [|_]; [lia|]).
  { exfalso. destruct (_ || _); lia. }
  cbn [readData_loop].
  destruct (Nat.ltb_spec (length buf) n) as [Hlt|]; [|lia].
  set (k := (n - length buf)%nat) in *.
  destruct (data s) as [|b d] eqn:Hd.
  { unfold Read. rewrite Hd. rewrite advance_nil by done. simpl.
    destruct (Nat.ltb_spec 0 k); [done|lia]. }
  rewrite Read_some by (by rewrite Hd). rewrite Hd.
  set (len := length (b :: d)) in *.
  set (m := Nat.min _ len).
  assert (Hm : (m ≤ k ∧ m ≤ len ∧ 0 < len)%nat).
  { subst m len. simpl. destruct (sched s); lia. }
  assert (Hadv : ∀ r, (r = k - m)%nat →
     sched_after (tail (sched s)) r (len - m) = sched_after (sched s) k len).
  { intros r ->. subst m. destruct (sched s) as [|l sch]; [done|]. cbn [tail sched_after].
    destruct (Nat.eqb_spec k 0); [lia|]. destruct (Nat.eqb_spec len 0); [lia|]. done. }
  destruct (eager s && (m =? len)%nat) eqn:Heager.
  - apply andb_true_iff in Heager as [He Hml%Nat.eqb_eq].
    assert (Hs : advance k s = mkSource [] (tail (sched s)) (eager s) (term s)).
    { unfold advance. rewrite Hd. rewrite drop_ge by (fold len; lia). f_equal.
      fold len. rewrite <- (Hadv (k - m)%nat) by done.
      replace (len - m)%nat with 0%nat by lia. by rewrite sched_after_0_r. }
    rewrite Hs, He. f_equal.
    destruct (Nat.ltb_spec len k), (Nat.eqb_spec len k); simpl; try lia; done.
  - set (s' := mkSource (drop m (b :: d)) (tail (sched s)) (eager s) (term s)).
    assert (Hlen' : length (data s') = (len - m)%nat) by (subst s'; simpl; apply length_drop).
    assert (Hbuf' : length (buf ++ take m (b :: d)) = (length buf + m)%nat).
    { rewrite length_app, length_take. fold len. lia. }
    rewrite IH; cycle 1.
    { lia. }
    { unfold reads_needed. rewrite Hbuf', Hlen'. subst s'. simpl.
      destruct (Nat.eqb_spec (n - (length buf + m)) 0); [lia|].
      destruct (sched s) as [|l sch]; simpl in *.
      - assert (m = Nat.min k len) by (subst m; done).
        destruct (Nat.leb_spec k len), (Nat.leb_spec (n - (length buf + m)) (len - m)),
          (Nat.eqb_spec len 0), (Nat.eqb_spec (len - m) 0); simpl in *; lia.
      - destruct (Nat.leb_spec k len), (Nat.leb_spec (n - (length buf + m)) (len - m)),
          (Nat.eqb_spec len 0), (Nat.eqb_spec (len - m) 0); simpl in *; lia. }
    rewrite Hbuf', Hlen'. replace (n - (length buf + m))%nat with (k - m)%nat by lia.
    f_equal.
    + assert (Hmlen : eager s = true → m ≠ len).
      { intros He. rewrite He in Heager. simpl in Heager. by apply Nat.eqb_neq. }
      subst s'. cbn [data eager term].
      assert (Htake : (buf ++ take m (b :: d)) ++ take (k - m) (drop m (b :: d))
                      = buf ++ take k (b :: d)).
      { rewrite <- app_assoc, take_take_drop. by replace (m + (k - m))%nat with k by lia. }
      rewrite Htake.
      destruct (Nat.eqb_spec (k - m) 0) as [Hkm|Hkm].
      * assert (m = k) as Hmk by lia.
        destruct (Nat.ltb_spec len k); [lia|]. cbn [orb].
        destruct (eager s) eqn:He; cbn [andb].
        -- destruct (Nat.eqb_spec len k); [specialize (Hmlen eq_refl); lia|]. by rewrite Hmk.
        -- by rewrite Hmk.
      * destruct (Nat.ltb_spec (len - m) (k - m)), (Nat.ltb_spec len k); try lia; cbn [orb]; [done|].
        destruct (eager s); cbn [andb]; [|done].
        destruct (Nat.eqb_spec (len - m) (k - m)), (Nat.eqb_spec len k); try lia; done.
    + unfold advance. rewrite Hlen'. subst s'. simpl. rewrite Hd. fold len.
      rewrite drop_drop. f_equal; [f_equal; lia|]. apply Hadv. lia.
Qed.

Lemma binary_Read_cases {A} (size : nat) (decode : list byte → A) s :
  ((size ≤ length (data s))%nat
   ∧ binary_Read size decode s = (Ok (decode (take size (data s))), advance size s))
  ∨ ((length (data s) < size)%nat
     ∧ binary_Read size decode s = (Err (shortRead s), advance size s)).
Proof.
  destruct (Nat.le_gt_cases size (length (data s))); [left|right];
    eauto using binary_Read_ok, binary_Read_short.
Qed.

Lemma data_advance k s : data (advance k s) = drop k (data s).
Proof. done. Qed.

Lemma length_data_advance k s : length (data (advance k s)) = (length (data s) - k)%nat.
Proof. by rewrite data_advance, length_drop. Qed.

Lemma eager_advance k s : eager (advance k s) = eager s.
Proof. done. Qed.

Lemma term_advance k s : term (advance k s) = term s.
Proof. done. Qed.

Lemma shortRead_not_EOF s : data s ≠ [] → shortRead s ≠ io_EOF.
Proof.
  unfold shortRead. destruct (data s); [done|]. intros _.
  case_bool_decide; congruence.
Qed.

(** ** The header and the dispatch *)

Section ReaderProperties.
Context {K : Constants}.
(** [ReadSegment] on a source with a whole header, a good magic number and a
    known tag goes on with the body parser of the tag. *)
Lemma ReadSegment_dispatch s :
  (13 ≤ length (data s))%nat →
  h_MagicNumber (nextHeader s) = 0x5047 →
  knownType (h_SegmentType (nextHeader s)) = true →
  let h := nextHeader s in
  ReadSegment s =
    (if bool_decide (h_SegmentType h = pcsType) then
       let* pc := wrap ErrPCS (readPresentationComposition (h_SegmentSize h)) in
       ret (segmentOf h (DataPresentationComposition pc))
     else if bool_decide (h_SegmentType h = wdsType) then
       let* w := wrap ErrWDS (readWindows (h_SegmentSize h)) in
       ret (segmentOf h (DataWindows w))
     else if bool_decide (h_SegmentType h = pdsType) then
       let* p := wrap ErrPDS (readPalette (h_SegmentSize h)) in
       ret (segmentOf h (DataPalette p))
     else if bool_decide (h_SegmentType h = odsType) then
       let* o := wrap ErrODS (readObject (h_SegmentSize h)) in
       ret (segmentOf h (DataObject o))
     else ret (segmentOf h DataNil)) (advance 13 s).
Proof.
  intros Hlen Hmagic Hknown h. subst h. unfold ReadSegment, bind at 1, wrap at 1.
  rewrite binary_Read_ok by done. fold (nextHeader s).
  destruct (bool_decide_reflect (h_MagicNumber (nextHeader s) ≠ 20551)) as [Hn|_]; [done|].
  rewrite Hknown. cbn [negb]. unfold segmentOf.
  repeat (case_bool_decide; [done|]).
  exfalso. unfold knownType in Hknown.
  rewrite !orb_true_iff, !bool_decide_eq_true in Hknown. tauto.
Qed.

(** C10. An end-marker segment: [ReadSegment] returns a segment whose [Data]
    is nil and leaves the source right behind the 13 bytes of the header,
    whatever body size the header declares; the bytes the header announces
    stay in the source. *)
Theorem ReadSegment_end_marker (s : Source) :
  (13 ≤ length (data s))%nat →
  h_MagicNumber (nextHeader s) = 0x5047 →
  h_SegmentType (nextHeader s) = endType →
  endType ≠ pcsType → endType ≠ wdsType → endType ≠ pdsType → endType ≠ odsType →
  ReadSegment s = (Ok (segmentOf (nextHeader s) DataNil), advance 13 s)
  ∧ Data (segmentOf (nextHeader s) DataNil) = DataNil
  ∧ data (advance 13 s) = drop 13 (data s).
Proof.
  intros Hlen Hmagic Htype H1 H2 H3 H4. split; [|done].
  rewrite ReadSegment_dispatch; [|done..|].
  - rewrite Htype. by rewrite !bool_decide_eq_false_2 by done.
  - unfold knownType. rewrite Htype, (bool_decide_eq_true_2 (endType = endType)) by done.
    by rewrite !orb_true_r.
Qed.

(** [ReadSegment] on a source that ends before the 13 bytes of a header. *)
Lemma ReadSegment_short s :
  (length (data s) < 13)%nat →
  ReadSegment s =
    (Err (if bool_decide (shortRead s = io_EOF) then shortRead s
          else ErrSegmentHeader (shortRead s)), advance 13 s).
Proof.
  intros Hlen. unfold ReadSegment, bind at 1, wrap at 1.
  by rewrite binary_Read_short by done.
Qed.

(** [ReadSegment] on a header with a wrong magic number. *)
Lemma ReadSegment_bad_magic s :
  (13 ≤ length (data s))%nat → h_MagicNumber (nextHeader s) ≠ 0x5047 →
  ReadSegment s = (Err (ErrMagicNumber (h_MagicNumber (nextHeader s))), advance 13 s).
Proof.
  intros Hlen Hmagic.
  unfold ReadSegment, bind at 1, wrap at 1. rewrite binary_Read_ok by done.
  fold (nextHeader s). by rewrite bool_decide_eq_true_2.
Qed.

(** [ReadSegment] on a header with a type tag it does not know. *)
Lemma ReadSegment_bad_type s :
  (13 ≤ length (data s))%nat → h_MagicNumber (nextHeader s) = 0x5047 →
  knownType (h_SegmentType (nextHeader s)) = false →
  ReadSegment s = (Err (ErrSegmentType (h_SegmentType (nextHeader s))), advance 13 s).
Proof.
  intros Hlen Hmagic Htype.
  unfold ReadSegment, bind at 1, wrap at 1. rewrite binary_Read_ok by done.
  fold (nextHeader s). rewrite bool_decide_eq_false_2 by (intros Hn; by apply Hn).
  by rewrite Htype.
Qed.

(** No error of a body parser reaches the caller of [ReadSegment] bare. *)
Lemma wrapped_body_not_EOF {A} (w : error → error) (m : M A) (k : A → Segment) s :
  (∀ e, w e ≠ io_EOF) →
  fst ((let* a := wrap w m in ret (k a)) s) ≠ Err io_EOF.
Proof.
  intros Hw. unfold bind, wrap, ret. destruct (m s) as [[a|e| |] s']; simpl; try done.
  intros [= He]. by eapply Hw.
Qed.

(** C6. [ReadSegment] returns io.EOF itself exactly when the source has no
    byte left and ends with io.EOF. A source that ends inside the header,
    a magic number other than 0x5047 and a type tag that is none of the five
    known ones each give an error of their own, which neither is io.EOF nor
    wraps it. *)
Theorem ReadSegment_EOF_and_header_errors (s : Source) :
  (fst (ReadSegment s) = Err io_EOF ↔ data s = [] ∧ term s = io_EOF)
  ∧ (data s ≠ [] → (length (data s) < 13)%nat → term s = io_EOF →
     ReadSegment s = (Err (ErrSegmentHeader io_ErrUnexpectedEOF), advance 13 s)
     ∧ errors_Is (ErrSegmentHeader io_ErrUnexpectedEOF) io_EOF = false)
  ∧ ((13 ≤ length (data s))%nat → h_MagicNumber (nextHeader s) ≠ 0x5047 →
     ReadSegment s = (Err (ErrMagicNumber (h_MagicNumber (nextHeader s))), advance 13 s)
     ∧ errors_Is (ErrMagicNumber (h_MagicNumber (nextHeader s))) io_EOF = false)
  ∧ ((13 ≤ length (data s))%nat → h_MagicNumber (nextHeader s) = 0x5047 →
     knownType (h_SegmentType (nextHeader s)) = false →
     ReadSegment s = (Err (ErrSegmentType (h_SegmentType (nextHeader s))), advance 13 s)
     ∧ errors_Is (ErrSegmentType (h_SegmentType (nextHeader s))) io_EOF = false).
Proof.
  split; [|split; [|split]].
  - destruct (Nat.le_gt_cases 13 (length (data s))) as [Hlen|Hlen].
    + split; [|intros [Hnil _]; rewrite Hnil in Hlen; simpl in Hlen; lia].
      intros Heof. exfalso. revert Heof.
      unfold ReadSegment, bind at 1, wrap at 1. rewrite binary_Read_ok by done.
      case_bool_decide; [done|].
      destruct (negb _); [done|].
      repeat (case_bool_decide; [by apply wrapped_body_not_EOF|]).
      by case_bool_decide.
    + rewrite ReadSegment_short by done. cbn [fst]. unfold shortRead.
      destruct (data s) as [|b d]; [|split; [|by intros []]].
      * case_bool_decide as Ht; [by rewrite Ht|]. split; [done|by intros []].
      * repeat case_bool_decide; congruence.
  - intros Hne Hlen Hterm. split; [|done]. rewrite ReadSegment_short by done.
    unfold shortRead. destruct (data s); [done|]. rewrite Hterm.
    rewrite (bool_decide_eq_true_2 (io_EOF = io_EOF)) by done.
    by rewrite bool_decide_eq_false_2.
  - intros Hlen Hmagic. split; [by apply ReadSegment_bad_magic|done].
  - intros Hlen Hmagic Htype. split; [by apply ReadSegment_bad_type|done].
Qed.

(** ** Object segments *)

Lemma readData_spec n s :
  readData n s =
    ((if (n =? 0)%nat then Ok []
      else if (length (data s) <? n)%nat || (eager s && (length (data s) =? n)%nat)
           then Err (term s)
           else Ok (take n (data s))),
     advance n s).
Proof.
  unfold readData. rewrite readData_loop_spec.
  - simpl. by rewrite Nat.sub_0_r.
  - simpl. lia.
  - apply reads_needed_budget.
Qed.

(** [readObject] up to the payload: the record is read, the flags are
    checked and the length of the payload is computed. *)
Lemma readObject_unfold segmentSize s :
  (11 ≤ length (data s))%nat →
  Z.ldiff (ods_SequenceFlag (nextOds s)) (Z.lor firstInSequence lastInSequence) = 0 →
  readObject segmentSize s =
    if bool_decide (totalDataLength s - 4 < 0) then (Err ErrDataLength, advance 11 s)
    else (let* d := readData (Z.to_nat (totalDataLength s - 4)) in
          ret (objectOf (nextOds s) d)) (advance 11 s).
Proof.
  intros Hlen Hflag. unfold readObject, bind at 1. rewrite binary_Read_ok by done.
  fold (nextOds s). rewrite bool_decide_eq_false_2 by (intros Hn; by apply Hn).
  fold (totalDataLength s). by case_bool_decide.
Qed.


(** The payload of an object segment with a total data length of at least 4:
    [readObject] returns the next bytes of the source as the payload if the
    source has that many, and the error of the source if it has fewer, but
    the error of the source also if it hands over its last bytes and its
    error in one call of [Read] and those bytes complete the payload. *)
Lemma readObject_payload segmentSize s :
  (11 ≤ length (data s))%nat →
  Z.ldiff (ods_SequenceFlag (nextOds s)) (Z.lor firstInSequence lastInSequence) = 0 →
  4 ≤ totalDataLength s →
  let n := Z.to_nat (totalDataLength s - 4) in
  let s1 := advance 11 s in
  readObject segmentSize s =
    ((if (n =? 0)%nat then Ok (objectOf (nextOds s) [])
      else if (length (data s1) <? n)%nat || (eager s && (length (data s1) =? n)%nat)
           then Err (term s)
           else Ok (objectOf (nextOds s) (take n (data s1)))),
     advance n s1).
Proof.
  intros Hlen Hflag Htotal n s1. rewrite readObject_unfold by done.
  rewrite bool_decide_eq_false_2 by lia. unfold bind. rewrite readData_spec.
  rewrite eager_advance, term_advance. subst n s1.
  destruct (_ =? 0)%nat; [done|]. by destruct (_ || _).
Qed.

(** A source that reports its end only on a call of [Read] that delivers
    nothing: the payload is read if and only if the source has it. *)
Lemma readObject_payload_lazy segmentSize s :
  (11 ≤ length (data s))%nat →
  Z.ldiff (ods_SequenceFlag (nextOds s)) (Z.lor firstInSequence lastInSequence) = 0 →
  4 ≤ totalDataLength s →
  eager s = false →
  let n := Z.to_nat (totalDataLength s - 4) in
  readObject segmentSize s =
    (if bool_decide (length (drop 11 (data s)) < n)%nat then Err (term s)
     else Ok (objectOf (nextOds s) (take n (drop 11 (data s)))),
     advance n (advance 11 s)).
Proof.
  intros Hlen Hflag Htotal Hlazy n. rewrite readObject_payload by done. fold n.
  rewrite Hlazy, data_advance. cbn [andb]. rewrite orb_false_r. f_equal.
  destruct (Nat.eqb_spec n 0) as [Hn|Hn].
  - rewrite bool_decide_eq_false_2 by lia. by rewrite Hn, take_0.
  - by destruct (Nat.ltb_spec (length (drop 11 (data s))) n);
      [rewrite bool_decide_eq_true_2|rewrite bool_decide_eq_false_2 by lia].
Qed.

(** C7. The payload loop of [readObject] gives up the payload when the
    source hands over the bytes that complete it together with its error:
    a source that holds exactly the payload behind the object record and
    reports its end along with its last bytes makes [readObject] return that
    error, although every byte of the payload was delivered; the same bytes
    from a source that reports its end on the call after are decoded. *)
Theorem readObject_payload_error_with_last_bytes (segmentSize : Z) (s : Source) :
  (11 ≤ length (data s))%nat →
  Z.ldiff (ods_SequenceFlag (nextOds s)) (Z.lor firstInSequence lastInSequence) = 0 →
  4 < totalDataLength s →
  length (drop 11 (data s)) = Z.to_nat (totalDataLength s - 4) →
  eager s = true →
  fst (readObject segmentSize s) = Err (term s)
  ∧ data (snd (readObject segmentSize s)) = []
  ∧ fst (readObject segmentSize (mkSource (data s) (sched s) false (term s)))
    = Ok (objectOf (nextOds s) (drop 11 (data s))).
Proof.
  intros Hlen Hflag Htotal Hpayload Heager. split_and!.
  - rewrite readObject_payload by (done || lia).
    rewrite data_advance, Hpayload, Heager, Nat.eqb_refl, orb_true_r.
    by destruct (Nat.eqb_spec (Z.to_nat (totalDataLength s - 4)) 0); [lia|].
  - rewrite readObject_payload by (done || lia). cbn [snd].
    rewrite !data_advance. apply drop_ge. lia.
  - rewrite readObject_payload_lazy;
      [|exact Hlen|exact Hflag|change (4 ≤ totalDataLength s); lia|done].
    change (totalDataLength (mkSource (data s) (sched s) false (term s)))
      with (totalDataLength s).
    change (nextOds (mkSource (data s) (sched s) false (term s))) with (nextOds s).
    cbn [data fst]. rewrite bool_decide_eq_false_2 by lia.
    rewrite <- Hpayload. by rewrite take_ge.
Qed.

(** Overwriting the body size leaves the other fields of the header as
    they were. *)
Lemma nextHeader_withSegmentSize hi lo s :
  (13 ≤ length (data s))%nat →
  h_MagicNumber (nextHeader (withSegmentSize hi lo s)) = h_MagicNumber (nextHeader s)
  ∧ h_PresentationTime (nextHeader (withSegmentSize hi lo s)) = h_PresentationTime (nextHeader s)
  ∧ h_DecodingTime (nextHeader (withSegmentSize hi lo s)) = h_DecodingTime (nextHeader s)
  ∧ h_SegmentType (nextHeader (withSegmentSize hi lo s)) = h_SegmentType (nextHeader s)
  ∧ h_SegmentSize (nextHeader (withSegmentSize hi lo s)) = be16 [hi; lo] 0.
Proof.
  destruct s as [d sch e t]. unfold nextHeader, withSegmentSize. cbn [data].
  intros Hlen. do 13 (destruct d as [|? d]; [simpl in Hlen; lia|]).
  repeat split; reflexivity.
Qed.

Lemma advance_withSegmentSize hi lo s :
  (13 ≤ length (data s))%nat →
  length (data (withSegmentSize hi lo s)) = length (data s)
  ∧ advance 13 (withSegmentSize hi lo s) = advance 13 s.
Proof.
  destruct s as [d sch e t]. unfold advance, withSegmentSize. cbn [data sched eager term].
  intros Hlen. do 13 (destruct d as [|? d]; [simpl in Hlen; lia|]).
  split; reflexivity.
Qed.

(** C9. The body size of an object segment is not looked at: [readObject]
    does not depend on it, and a stream whose object segment declares any
    other body size is read to the same result, up to the same place. *)
Theorem ReadSegment_object_size_ignored (hi lo : byte) (s : Source) :
  (13 ≤ length (data s))%nat →
  h_SegmentType (nextHeader s) = odsType →
  odsType ≠ pcsType → odsType ≠ wdsType → odsType ≠ pdsType →
  h_SegmentSize (nextHeader (withSegmentSize hi lo s)) = be16 [hi; lo] 0
  ∧ length (data (withSegmentSize hi lo s)) = length (data s)
  ∧ ReadSegment (withSegmentSize hi lo s) = ReadSegment s
  ∧ (∀ size1 size2 s0, readObject size1 s0 = readObject size2 s0).
Proof.
  intros Hlen Htype H1 H2 H3.
  destruct (nextHeader_withSegmentSize hi lo s Hlen) as (Hm & Hp & Hd & Ht & Hs).
  destruct (advance_withSegmentSize hi lo s Hlen) as [Hlen' Hadv].
  split; [done|]. split; [done|]. split; [|done].
  destruct (decide (h_MagicNumber (nextHeader s) = 0x5047)) as [Hmagic|Hmagic].
  - assert (Hknown : knownType (h_SegmentType (nextHeader s)) = true).
    { unfold knownType. rewrite Htype, (bool_decide_eq_true_2 (odsType = odsType)) by done.
      by rewrite !orb_true_r. }
    rewrite !ReadSegment_dispatch; [|done|done|done|lia|congruence|congruence].
    rewrite Ht, Hadv, Htype. rewrite !bool_decide_eq_false_2 by done.
    rewrite bool_decide_eq_true_2 by done.
    unfold segmentOf. by rewrite Hp, Hd.
  - rewrite !ReadSegment_bad_magic; [|done|done|lia|congruence].
    by rewrite Hm, Hadv.
Qed.

(** ** Window segments *)

Lemma u8_range b : 0 ≤ u8 b < 256.
Proof. unfold u8. pose proof (Byte.to_N_bounded b). lia. Qed.

Lemma at8_range buf i : 0 ≤ at8 buf i < 256.
Proof. apply u8_range. Qed.

(** The 16-bit product of [readWindows] does not wrap. *)
Lemma windowsSize_exact count : 0 ≤ count < 256 → windowsSize count = 9 * count + 1.
Proof. intros Hc. unfold windowsSize. rewrite Z.mod_small; lia. Qed.

Lemma readWindowList_length todo : ∀ windows s ws s',
  readWindowList todo windows s = (Ok ws, s') →
  length ws = (length windows + todo)%nat.
Proof.
  induction todo as [|todo IH]; intros windows s ws s'; simpl.
  - intros [= <- _]. lia.
  - unfold bind at 1. destruct (binary_Read 9 decode_Window s) as [[w|e| |] s1]; try done.
    intros Hrest%IH. rewrite length_app in Hrest. simpl in Hrest. lia.
Qed.

(** One round of the window loop. *)
Lemma readWindowList_step todo windows s :
  readWindowList (S todo) windows s =
    if decide (9 ≤ length (data s))%nat
    then readWindowList todo (windows ++ [decode_Window (take 9 (data s))]) (advance 9 s)
    else (Err (shortRead s), advance 9 s).
Proof.
  cbn [readWindowList]. unfold bind at 1.
  destruct (binary_Read_cases 9 decode_Window s) as [[Hlen ->]|[Hlen ->]].
  - by rewrite decide_True.
  - by rewrite decide_False by lia.
Qed.

(** The window loop: it returns the windows of the next [todo] records if
    the source holds them, and the error of the first read that falls short
    otherwise. *)
Lemma readWindowList_spec todo : ∀ windows s,
  if decide (9 * todo ≤ length (data s))%nat
  then fst (readWindowList todo windows s) = Ok (windows ++ windowRecords todo (data s))
       ∧ data (snd (readWindowList todo windows s)) = drop (9 * todo) (data s)
  else fst (readWindowList todo windows s)
       = Err (shortReadAt (length (data s) mod 9) (term s)).
Proof.
  induction todo as [|todo IH]; intros windows s.
  - rewrite decide_True by lia. simpl. by rewrite app_nil_r.
  - rewrite readWindowList_step. cbn [windowRecords].
    destruct (decide (9 ≤ length (data s))%nat) as [Hlen|Hlen].
    + specialize (IH (windows ++ [decode_Window (take 9 (data s))]) (advance 9 s)).
      rewrite length_data_advance, data_advance, term_advance in IH.
      destruct (decide (9 * todo ≤ length (data s) - 9)%nat) as [Hall|Hshort].
      * rewrite decide_True by lia. destruct IH as [-> ->]. rewrite <- app_assoc.
        split; [done|]. rewrite drop_drop. f_equal. lia.
      * rewrite decide_False by lia.
        assert (Hmod : ((length (data s) - 9) mod 9 = length (data s) mod 9)%nat).
        { replace (length (data s)) with ((length (data s) - 9) + 1 * 9)%nat at 2 by lia.
          symmetry. apply Nat.Div0.mod_add. }
        by rewrite IH, Hmod.
    + rewrite decide_False by lia. cbn [fst]. f_equal.
      unfold shortRead, shortReadAt. rewrite Nat.mod_small by lia.
      by destruct (data s).
Qed.

(** C4. A window segment: after the byte of the window count, a body size
    other than 9 × count + 1 is refused before any window is read; a body
    size of 1 with a count of 0 gives the empty list; a decoded segment has
    the body size 9 × count + 1 and its windows are the count records of 9
    bytes behind the count byte, decoded in their order, all of which the
    source held and has delivered; and a segment with that body size which
    the source holds is decoded. *)
Theorem readWindows_size (segmentSize : Z) (s : Source) :
  (1 ≤ length (data s))%nat →
  let count := wds_WindowCount (nextWds s) in
  (segmentSize ≠ 9 * count + 1 →
   readWindows segmentSize s
     = (Err (ErrWindowCount segmentSize (9 * count + 1) count), advance 1 s))
  ∧ (segmentSize = 1 → count = 0 → readWindows segmentSize s = (Ok [], advance 1 s))
  ∧ (∀ ws s', readWindows segmentSize s = (Ok ws, s') →
     segmentSize = 9 * count + 1 ∧ Z.of_nat (length ws) = count
     ∧ ws = windowRecords (Z.to_nat count) (drop 1 (data s))
     ∧ (Z.to_nat segmentSize ≤ length (data s))%nat
     ∧ data s' = drop (Z.to_nat segmentSize) (data s))
  ∧ (segmentSize = 9 * count + 1 → (Z.to_nat segmentSize ≤ length (data s))%nat →
     fst (readWindows segmentSize s) = Ok (windowRecords (Z.to_nat count) (drop 1 (data s)))
     ∧ data (snd (readWindows segmentSize s)) = drop (Z.to_nat segmentSize) (data s)).
Proof.
  intros Hlen count.
  assert (Hcount : 0 ≤ count < 256) by apply at8_range.
  assert (Hun : ∀ size, readWindows size s =
            if bool_decide (size ≠ 9 * count + 1)
            then (Err (ErrWindowCount size (9 * count + 1) count), advance 1 s)
            else readWindowList (Z.to_nat count) [] (advance 1 s)).
  { intros size. unfold readWindows, bind at 1. rewrite binary_Read_ok by done.
    fold (nextWds s). fold count. rewrite windowsSize_exact by done.
    by case_bool_decide. }
  pose proof (readWindowList_spec (Z.to_nat count) [] (advance 1 s)) as Hspec.
  rewrite length_data_advance, data_advance, term_advance, drop_drop in Hspec.
  rewrite !Hun. split_and!.
  - intros Hne. by rewrite bool_decide_eq_true_2.
  - intros -> Hzero. rewrite Hzero. by rewrite bool_decide_eq_false_2 by (intros Hn; by apply Hn).
  - intros ws s'. case_bool_decide as Hsize; [done|].
    assert (segmentSize = 9 * count + 1) as Heq.
    { destruct (decide (segmentSize = 9 * count + 1)); [done|]. by destruct Hsize. }
    intros Hok. pose proof (readWindowList_length _ _ _ _ _ Hok) as Hws. simpl in Hws.
    rewrite Hok in Hspec. cbn [fst snd] in Hspec.
    destruct (decide _) as [Hheld|]; [|done]. destruct Hspec as [[= ->] ->].
    split_and!; [done|lia|done|lia|f_equal; lia].
  - intros Heq Hheld. rewrite bool_decide_eq_false_2 by (intros Hn; by apply Hn).
    rewrite decide_True in Hspec by lia. destruct Hspec as [-> ->].
    split; [done|f_equal; lia].
Qed.

(** ** Palette segments *)

(** The 16-bit subtraction of [readPalette] does not wrap once the size has
    passed the check. *)
Lemma paletteCount_exact segmentSize :
  0 ≤ segmentSize < 65536 → segmentSize mod 5 = 2 →
  paletteCount segmentSize = (segmentSize - 2) / 5 ∧ 0 ≤ (segmentSize - 2) / 5.
Proof.
  intros Hrange Hmod. unfold paletteCount.
  assert (2 ≤ segmentSize).
  { destruct (decide (segmentSize < 2)); [|lia]. rewrite Z.mod_small in Hmod; lia. }
  rewrite Z.mod_small by lia. split; [done|]. apply Z.div_pos; lia.
Qed.

(** The entries a run of the loop of [readPalette] returns: [todo] new ones,
    with IDs that differ from each other and from the IDs seen before. *)
Lemma readPaletteEntries_ok todo : ∀ i n entries (ids : gset Z) s r s',
  readPaletteEntries todo i n entries ids s = (Ok r, s') →
  ∃ new, r = entries ++ new ∧ length new = todo
         ∧ NoDup (Entry_ID <$> new) ∧ (∀ x, x ∈ Entry_ID <$> new → x ∉ ids).
Proof.
  induction todo as [|todo IH]; intros i n entries ids s r s'; simpl.
  - intros [= <- _]. exists []. rewrite app_nil_r. repeat split; [constructor|].
    intros x Hx. by apply elem_of_nil in Hx.
  - unfold bind at 1, wrap.
    destruct (binary_Read 5 decode_PaletteEntry s) as [[e|err| |] s1]; try done.
    case_bool_decide as Hseen; [done|].
    intros (new & -> & Hlen & Hnodup & Hfresh)%IH.
    exists (e :: new). rewrite <- app_assoc. simpl. repeat split; [by rewrite Hlen| |].
    + constructor; [|done]. intros Hin. apply Hfresh in Hin. set_solver.
    + intros x [->|Hx]%elem_of_cons; [done|]. apply Hfresh in Hx. set_solver.
Qed.

(** [readPalette] once the size has passed the check. *)
Lemma readPalette_unfold segmentSize s :
  segmentSize mod 5 = 2 → (2 ≤ length (data s))%nat →
  readPalette segmentSize s =
    (let* entries := readPaletteEntries (Z.to_nat (paletteCount segmentSize)) 0
                       (paletteCount segmentSize) [] ∅ in
     ret {| Palette_ID := pds_PaletteID (nextPds s);
            Palette_Version := pds_PaletteVersion (nextPds s);
            Palette_Entries := entries |}) (advance 2 s).
Proof.
  intros Hmod Hlen. unfold readPalette.
  rewrite bool_decide_eq_false_2 by (intros Hn; by apply Hn).
  unfold bind at 1. by rewrite binary_Read_ok by done.
Qed.


(** One round of the loop of [readPalette] on a source that holds the entry. *)
Lemma readPaletteEntries_step todo i n entries (ids : gset Z) s :
  (5 ≤ length (data s))%nat →
  let e := decode_PaletteEntry (take 5 (data s)) in
  readPaletteEntries (S todo) i n entries ids s =
    if bool_decide (Entry_ID e ∈ ids)
    then (Err (ErrIDReused (Z.of_nat i) n (Entry_ID e)), advance 5 s)
    else readPaletteEntries todo (S i) n (entries ++ [e]) ({[Entry_ID e]} ∪ ids) (advance 5 s).
Proof.
  intros Hlen e. cbn [readPaletteEntries]. unfold bind at 1, wrap.
  rewrite binary_Read_ok by done. fold e. by case_bool_decide.
Qed.

(** The loop of [readPalette] on a source that holds all [todo] entries:
    either their IDs differ from each other and from those seen before and
    the entries are returned, or the loop fails at the first entry whose ID
    was seen before or occurs in an earlier entry, with its index. *)
Lemma readPaletteEntries_body todo : ∀ i n entries (ids : gset Z) s,
  (5 * todo ≤ length (data s))%nat →
  let body := paletteBody todo (data s) in
  let bids := Entry_ID <$> body in
  (NoDup bids ∧ (∀ x, x ∈ bids → x ∉ ids)
   ∧ fst (readPaletteEntries todo i n entries ids s) = Ok (entries ++ body))
  ∨ (∃ j id, bids !! j = Some id ∧ (id ∈ ids ∨ id ∈ take j bids)
             ∧ NoDup (take j bids) ∧ (∀ x, x ∈ take j bids → x ∉ ids)
             ∧ fst (readPaletteEntries todo i n entries ids s)
               = Err (ErrIDReused (Z.of_nat (i + j)) n id)).
Proof.
  induction todo as [|todo IH]; intros i n entries ids s Hlen.
  - left. simpl. rewrite app_nil_r. split_and!; [constructor| |done].
    intros x Hx. by apply elem_of_nil in Hx.
  - rewrite readPaletteEntries_step by lia. cbn [paletteBody].
    set (e := decode_PaletteEntry (take 5 (data s))).
    case_bool_decide as Hseen.
    + right. exists 0%nat, (Entry_ID e). rewrite Nat.add_0_r. simpl.
      split_and!; [done|by left|constructor| |done].
      intros x Hx. by apply elem_of_nil in Hx.
    + destruct (IH (S i) n (entries ++ [e]) ({[Entry_ID e]} ∪ ids) (advance 5 s))
        as [(Hnodup & Hfresh & Hok)|(j & id & Hj & Hin & Hnodup & Hfresh & Herr)].
      { rewrite length_data_advance. lia. }
      * left. rewrite data_advance in *. split_and!.
        -- constructor; [|done]. intros Hin. apply Hfresh in Hin. set_solver.
        -- intros x [->|Hx]%elem_of_cons; [done|]. apply Hfresh in Hx. set_solver.
        -- etrans; [exact Hok|]. by rewrite <- app_assoc.
      * right. rewrite data_advance in *. exists (S j), id. simpl. split_and!.
        -- done.
        -- destruct Hin as [Hin|Hin]; [|right; by right].
           apply elem_of_union in Hin as [->%elem_of_singleton|Hin]; [right; by left|by left].
        -- constructor; [|done]. intros Hin'. apply Hfresh in Hin'.
           apply Hin', elem_of_union. left. by apply elem_of_singleton.
        -- intros x [->|Hx]%elem_of_cons; [done|]. apply Hfresh in Hx.
           intros Hx'. apply Hx, elem_of_union. by right.
        -- etrans; [exact Herr|]. do 2 f_equal. lia.
Qed.

(** C5. A palette segment the source holds in full: if two of its entries
    have the same ID, [readPalette] fails with the index and the ID of the
    first entry that repeats the ID of an entry before it; the entry IDs of
    every decoded palette differ from each other. *)
Theorem readPalette_duplicate_ID (segmentSize : Z) (s : Source) :
  0 ≤ segmentSize < 65536 →
  segmentSize mod 5 = 2 →
  (Z.to_nat segmentSize ≤ length (data s))%nat →
  let n := (segmentSize - 2) / 5 in
  let ids := Entry_ID <$> paletteBody (Z.to_nat n) (drop 2 (data s)) in
  (∀ i j x, (i < j)%nat → ids !! i = Some x → ids !! j = Some x →
     ∃ k id, (k ≤ j)%nat
       ∧ fst (readPalette segmentSize s) = Err (ErrIDReused (Z.of_nat k) n id)
       ∧ ids !! k = Some id ∧ id ∈ take k ids ∧ NoDup (take k ids))
  ∧ (∀ p s', readPalette segmentSize s = (Ok p, s') →
       NoDup (Entry_ID <$> Palette_Entries p)).
Proof.
  intros Hrange Hmod Hlen n ids.
  destruct (paletteCount_exact segmentSize Hrange Hmod) as [Hn Hpos]. fold n in Hn, Hpos.
  assert (Hsize : segmentSize = 5 * n + 2).
  { subst n. pose proof (Z.div_mod (segmentSize - 2) 5 ltac:(lia)) as Hdm.
    assert ((segmentSize - 2) mod 5 = 0); [|lia].
    rewrite Zminus_mod, Hmod. done. }
  assert (Hlen2 : (2 ≤ length (data s))%nat) by lia.
  rewrite readPalette_unfold by done. rewrite Hn. split.
  - intros i j x Hij Hi Hj.
    destruct (readPaletteEntries_body (Z.to_nat n) 0 n [] ∅ (advance 2 s))
      as [(Hnodup & _ & _)|(k & id & Hk & Hin & Hnodup & _ & Herr)].
    { rewrite length_data_advance. lia. }
    + rewrite data_advance in Hnodup. fold ids in Hnodup.
      pose proof (NoDup_lookup _ _ _ _ Hnodup Hi Hj). lia.
    + rewrite data_advance in *. fold ids in Hk, Hin, Hnodup.
      exists k, id. unfold bind. 
      destruct (readPaletteEntries _ _ _ _ _ _) as [r s1]. simpl in Herr. subst r. simpl.
      split_and!; [|done|done| |done].
      * destruct (Nat.le_gt_cases k j) as [|Hgt]; [done|]. exfalso.
        assert (take k ids !! i = Some x) as Hi' by (rewrite lookup_take_lt by lia; done).
        assert (take k ids !! j = Some x) as Hj' by (rewrite lookup_take_lt by lia; done).
        pose proof (NoDup_lookup _ _ _ _ Hnodup Hi' Hj'). lia.
      * destruct Hin as [Hin|Hin]; [set_solver|done].
  - intros p s'. unfold bind.
    destruct (readPaletteEntries _ _ _ _ _ _) as [[r|e| |] s1] eqn:Hloop; try done.
    intros [= <- _]. simpl.
    by apply readPaletteEntries_ok in Hloop as (new & -> & _ & Hnodup & _).
Qed.

(** ** Presentation composition segments *)

Lemma legalState_bool st :
  bool_decide (st = Normal) || bool_decide (st = AcquisitionPoint)
  || bool_decide (st = EpochStart) = true ↔ legalState st.
Proof. unfold legalState. rewrite !orb_true_iff, !bool_decide_eq_true. tauto. Qed.

(** One round of the object loop on a source that holds the object record. *)
Lemma readCompositionObject_spec i count size s :
  (8 ≤ length (data s))%nat →
  let obj := nextObject s in
  readCompositionObject i count size s =
    if bool_decide (Z.ldiff (pco_ObjectCropped obj) croppedForce ≠ 0) then
      (Err (ErrObjectFlag (Z.of_nat i + 1) count (pco_ObjectCropped obj)), advance 8 s)
    else if bool_decide (pco_ObjectCropped obj = croppedForce) then
      (let* crop := binary_Read 8 decode_CompositionObjectCrop in
       ret (compositionObjectOf obj (Some crop), size + 8 + 8)) (advance 8 s)
    else (Ok (compositionObjectOf obj None, size + 8), advance 8 s).
Proof.
  intros Hlen obj. unfold readCompositionObject, bind at 1, wrap.
  rewrite binary_Read_ok by done. fold (nextObject s). fold obj.
  by repeat case_bool_decide.
Qed.

(** What a round of the object loop that returns an object has done: the
    flag of the record has no bit outside [croppedForce], and a crop record
    was read and counted exactly if the flag is [croppedForce]. *)
Lemma readCompositionObject_ok i count size s o size' s' :
  readCompositionObject i count size s = (Ok (o, size'), s') →
  (8 ≤ length (data s))%nat
  ∧ Z.ldiff (pco_ObjectCropped (nextObject s)) croppedForce = 0
  ∧ ((pco_ObjectCropped (nextObject s) = croppedForce ∧ (16 ≤ length (data s))%nat
      ∧ cropped o = true ∧ size' = size + 16 ∧ data s' = drop 16 (data s))
     ∨ (pco_ObjectCropped (nextObject s) ≠ croppedForce
        ∧ cropped o = false ∧ size' = size + 8 ∧ data s' = drop 8 (data s))).
Proof.
  destruct (Nat.le_gt_cases 8 (length (data s))) as [Hlen|Hlen]; cycle 1.
  { unfold readCompositionObject, bind at 1, wrap.
    by rewrite binary_Read_short by done. }
  rewrite readCompositionObject_spec by done.
  case_bool_decide as Hflag; [done|].
  assert (Z.ldiff (pco_ObjectCropped (nextObject s)) croppedForce = 0) as Hlegal.
  { destruct (decide (Z.ldiff (pco_ObjectCropped (nextObject s)) croppedForce = 0));
      [done|by destruct Hflag]. }
  case_bool_decide as Hforce.
  - unfold bind.
    destruct (binary_Read_cases 8 decode_CompositionObjectCrop (advance 8 s))
      as [[Hlen' ->]|[_ ->]]; [|done].
    rewrite length_data_advance in Hlen'.
    intros [= <- <- <-]. split_and!; [done..|]. left.
    rewrite !data_advance, drop_drop. split_and!; [done|lia|done|lia|done].
  - intros [= <- <- <-]. split_and!; [done..|]. right. split_and!; done.
Qed.

(** The objects a run of the object loop returns: [todo] new ones, 8 bytes
    counted for each and 8 more for each cropped one, and each new object
    cropped exactly if the flag of its record is [croppedForce]. *)
Lemma readCompositionObjects_ok todo : ∀ i count objects size s objects' size' s',
  readCompositionObjects todo i count objects size s = (Ok (objects', size'), s') →
  ∃ new, objects' = objects ++ new ∧ length new = todo
    ∧ size' = size + 8 * Z.of_nat todo
              + 8 * Z.of_nat (length (filter (λ o, cropped o = true) new))
    ∧ Forall2 (λ o f, Z.ldiff f croppedForce = 0 ∧ (cropped o = true ↔ f = croppedForce))
              new (objectFlags todo (data s)).
Proof.
  induction todo as [|todo IH]; intros i count objects size s objects' size' s'.
  - simpl. intros [= <- <- _]. exists []. rewrite app_nil_r. split_and!; [done..|simpl; lia|constructor].
  - cbn [readCompositionObjects]. unfold bind at 1.
    destruct (readCompositionObject i count size s) as [[[o size1]|e| |] s1] eqn:Hbody; try done.
    apply readCompositionObject_ok in Hbody as (Hlen & Hlegal & Hcases).
    intros (new & -> & Hnew & -> & Hflags)%IH.
    exists (o :: new). rewrite <- app_assoc. split_and!; [done|simpl; lia| |].
    + rewrite filter_cons.
      destruct Hcases as [(_ & _ & Ho & -> & _)|(_ & Ho & -> & _)]; rewrite Ho.
      * rewrite decide_True by done. simpl. lia.
      * rewrite decide_False by done. lia.
    + cbn [objectFlags]. destruct (Nat.ltb_spec (length (data s)) 8); [lia|].
      fold (nextObject s).
      destruct Hcases as [(Hf & Hlen16 & Ho & _ & Hdata)|(Hf & Ho & _ & Hdata)].
      * rewrite bool_decide_eq_true_2 by done.
        destruct (Nat.ltb_spec (length (data s)) 16); [lia|].
        rewrite Hdata in Hflags. constructor; [|done]. by rewrite Ho.
      * rewrite bool_decide_eq_false_2 by done.
        rewrite Hdata in Hflags. constructor; [|done]. rewrite Ho. split; [done|].
        split; [done|]. intros Heq. by destruct Hf.
Qed.

(** The object loop on a source whose [j]-th object record is the first with
    a flag that has a bit outside [croppedForce]: the loop fails at that
    record, with its number counted from 1. *)
Lemma readCompositionObjects_flag j : ∀ todo i count objects size s f,
  objectFlags todo (data s) !! j = Some f →
  Z.ldiff f croppedForce ≠ 0 →
  (∀ j' f', (j' < j)%nat → objectFlags todo (data s) !! j' = Some f' →
            Z.ldiff f' croppedForce = 0) →
  fst (readCompositionObjects todo i count objects size s)
    = Err (ErrObjectFlag (Z.of_nat (i + j) + 1) count f).
Proof.
  induction j as [|j IH]; intros [|todo] i count objects size s f; cbn [objectFlags]; try done;
    (destruct (Nat.ltb_spec (length (data s)) 8) as [|Hlen]; [done|]);
    fold (nextObject s); intros Hj Hbad Hprev;
    cbn [readCompositionObjects]; unfold bind at 1;
    rewrite readCompositionObject_spec by done.
  - injection Hj as <-. rewrite bool_decide_eq_true_2 by done.
    by rewrite Nat.add_0_r.
  - rewrite bool_decide_eq_false_2 by (intros Hn; apply Hn; by apply (Hprev 0%nat); [lia|]).
    cbn [lookup list_lookup] in Hj.
    replace (Z.of_nat (i + S j)) with (Z.of_nat (S i + j)) by lia.
    case_bool_decide as Hforce.
    + destruct (Nat.ltb_spec (length (data s)) 16) as [|Hlen16]; [done|].
      assert (Hlen8 : (8 ≤ length (data (advance 8 s)))%nat)
        by (rewrite length_data_advance; lia).
      unfold bind at 1.
      rewrite (binary_Read_ok 8 decode_CompositionObjectCrop (advance 8 s) Hlen8).
      cbn [ret]. apply IH; rewrite ?data_advance, ?drop_drop; [done..|].
      intros j' f' Hj' Hlook. by apply (Hprev (S j')); [lia|].
    + apply IH; rewrite ?data_advance; [done..|].
      intros j' f' Hj' Hlook. by apply (Hprev (S j')); [lia|].
Qed.

(** [readPresentationComposition] on a composition state it does not know. *)
Lemma readPresentationComposition_bad_state segmentSize s :
  (11 ≤ length (data s))%nat →
  ¬ legalState (pcs_CompositionState (nextPcs s)) →
  readPresentationComposition segmentSize s
    = (Err (ErrCompositionState (pcs_CompositionState (nextPcs s))), advance 11 s).
Proof.
  intros Hlen Hstate. unfold readPresentationComposition, bind at 1.
  rewrite binary_Read_ok by done. fold (nextPcs s).
  rewrite <- legalState_bool in Hstate. apply not_true_is_false in Hstate.
  by rewrite Hstate.
Qed.

(** [readPresentationComposition] on a palette update flag with a bit
    outside [pufTrue]. *)
Lemma readPresentationComposition_bad_flag segmentSize s :
  (11 ≤ length (data s))%nat →
  legalState (pcs_CompositionState (nextPcs s)) →
  Z.ldiff (pcs_PaletteUpdateFlag (nextPcs s)) pufTrue ≠ 0 →
  readPresentationComposition segmentSize s
    = (Err (ErrPaletteUpdateFlag (pcs_PaletteUpdateFlag (nextPcs s))), advance 11 s).
Proof.
  intros Hlen Hstate Hflag. unfold readPresentationComposition, bind at 1.
  rewrite binary_Read_ok by done. fold (nextPcs s).
  rewrite <- legalState_bool in Hstate. rewrite Hstate. cbn [negb].
  by rewrite bool_decide_eq_true_2.
Qed.

(** [readPresentationComposition] past the checks of its first record. *)
Lemma readPresentationComposition_objects segmentSize s :
  (11 ≤ length (data s))%nat →
  legalState (pcs_CompositionState (nextPcs s)) →
  Z.ldiff (pcs_PaletteUpdateFlag (nextPcs s)) pufTrue = 0 →
  readPresentationComposition segmentSize s =
    match readCompositionObjects (Z.to_nat (pcs_ObjectCount (nextPcs s))) 0
            (pcs_ObjectCount (nextPcs s)) [] 11 (advance 11 s) with
    | (Ok (objects, size), s') =>
        if bool_decide (size ≠ segmentSize) then (Err (ErrSizeRead size segmentSize), s')
        else (Ok (compositionOf (nextPcs s) objects), s')
    | (Err e, s') => (Err e, s')
    | (Panic, s') => (Panic, s')
    | (Stuck, s') => (Stuck, s')
    end.
Proof.
  intros Hlen Hstate Hflag. unfold readPresentationComposition, bind at 1.
  rewrite binary_Read_ok by done. fold (nextPcs s).
  rewrite <- legalState_bool in Hstate. rewrite Hstate. cbn [negb].
  rewrite bool_decide_eq_false_2 by (intros Hn; by apply Hn).
  unfold bind.
  destruct (readCompositionObjects _ _ _ _ _ _) as [[[objects size]|e| |] s']; try done.
  by destruct (bool_decide (size ≠ segmentSize)).
Qed.

(** A decoded composition has passed the checks of its first record. *)
Lemma readPresentationComposition_ok segmentSize s pc s' :
  readPresentationComposition segmentSize s = (Ok pc, s') →
  (11 ≤ length (data s))%nat
  ∧ legalState (pcs_CompositionState (nextPcs s))
  ∧ Z.ldiff (pcs_PaletteUpdateFlag (nextPcs s)) pufTrue = 0.
Proof.
  intros Hok.
  destruct (Nat.le_gt_cases 11 (length (data s))) as [Hlen|Hlen]; cycle 1.
  { unfold readPresentationComposition, bind at 1 in Hok.
    by rewrite binary_Read_short in Hok by done. }
  revert Hok. unfold readPresentationComposition, bind at 1.
  rewrite binary_Read_ok by done. fold (nextPcs s).
  destruct (_ || _) eqn:Hstate; [|done]. apply legalState_bool in Hstate. cbn [negb].
  case_bool_decide as Hflag; [done|]. intros _. split_and!; [done..|].
  destruct (decide (Z.ldiff (pcs_PaletteUpdateFlag (nextPcs s)) pufTrue = 0));
    [done|by destruct Hflag].
Qed.

Lemma cropped_is_Some o : cropped o = true ↔ is_Some (CO_Crop o).
Proof.
  unfold cropped. destruct (CO_Crop o); split; done.
Qed.


(** C8. The legal values of a presentation composition segment: a
    composition state other than the three known ones and a palette update
    flag with a bit outside [pufTrue] are refused; an object record whose
    flag has a bit outside [croppedForce] is refused, with the number of the
    record; and in a decoded segment every flag is legal and an object has a
    crop record exactly if the flag of its record is [croppedForce]. *)
Theorem readPresentationComposition_legal_values (segmentSize : Z) (s : Source) :
  let p := nextPcs s in
  let flags := objectFlags (Z.to_nat (pcs_ObjectCount p)) (drop 11 (data s)) in
  ((11 ≤ length (data s))%nat → ¬ legalState (pcs_CompositionState p) →
   readPresentationComposition segmentSize s
     = (Err (ErrCompositionState (pcs_CompositionState p)), advance 11 s))
  ∧ ((11 ≤ length (data s))%nat → legalState (pcs_CompositionState p) →
     Z.ldiff (pcs_PaletteUpdateFlag p) pufTrue ≠ 0 →
     readPresentationComposition segmentSize s
       = (Err (ErrPaletteUpdateFlag (pcs_PaletteUpdateFlag p)), advance 11 s))
  ∧ ((11 ≤ length (data s))%nat → legalState (pcs_CompositionState p) →
     Z.ldiff (pcs_PaletteUpdateFlag p) pufTrue = 0 →
     ∀ j f, flags !! j = Some f → Z.ldiff f croppedForce ≠ 0 →
       (∀ j' f', (j' < j)%nat → flags !! j' = Some f' → Z.ldiff f' croppedForce = 0) →
       fst (readPresentationComposition segmentSize s)
         = Err (ErrObjectFlag (Z.of_nat j + 1) (pcs_ObjectCount p) f))
  ∧ (∀ pc s', readPresentationComposition segmentSize s = (Ok pc, s') →
     legalState (pcs_CompositionState p)
     ∧ Z.ldiff (pcs_PaletteUpdateFlag p) pufTrue = 0
     ∧ Forall2 (λ o f, Z.ldiff f croppedForce = 0 ∧ (is_Some (CO_Crop o) ↔ f = croppedForce))
               (PC_Objects pc) flags).
Proof.
  intros p flags. split_and!.
  - apply readPresentationComposition_bad_state.
  - apply readPresentationComposition_bad_flag.
  - intros Hlen Hstate Hflag j f Hj Hbad Hprev.
    rewrite readPresentationComposition_objects by done. fold p.
    pose proof (readCompositionObjects_flag j (Z.to_nat (pcs_ObjectCount p)) 0
                  (pcs_ObjectCount p) [] 11 (advance 11 s) f Hj Hbad Hprev) as Hloop.
    destruct (readCompositionObjects _ _ _ _ _ _) as [[[objects size]|e| |] s2]; try done.
    simpl in Hloop. by injection Hloop as ->.
  - intros pc s' Hok.
    destruct (readPresentationComposition_ok _ _ _ _ Hok) as (Hlen & Hstate & Hflag).
    split_and!; [done..|].
    rewrite readPresentationComposition_objects in Hok by done. fold p in Hok.
    destruct (readCompositionObjects _ _ _ _ _ _) as [[[objects size]|e| |] s2] eqn:Hloop;
      try done.
    case_bool_decide; [done|]. injection Hok as <- <-.
    apply readCompositionObjects_ok in Hloop as (new & -> & _ & _ & Hflags).
    cbn [compositionOf PC_Objects app].
    eapply Forall2_impl; [exact Hflags|].
    intros o f [Hlegal Hcrop]. split; [done|]. by rewrite <- cropped_is_Some.
Qed.

(** ** Every call returns

    No loop uses up its budget and the default case of the second switch of
    [ReadSegment] is never reached. *)

Lemma returns_bind {A B} (m : M A) (f : A → M B) s :
  returns (m s) → (∀ a s', returns (f a s')) → returns (bind m f s).
Proof.
  unfold returns, bind. intros Hm Hf.
  destruct (m s) as [[a|e| |] s']; simpl in *; try done. apply Hf.
Qed.

Lemma returns_wrap {A} (w : error → error) (m : M A) s :
  returns (m s) → returns (wrap w m s).
Proof. unfold returns, wrap. by destruct (m s) as [[a|e| |] s']. Qed.

Lemma returns_binary_Read {A} size (decode : list byte → A) s :
  returns (binary_Read size decode s).
Proof. by destruct (binary_Read_cases size decode s) as [[_ ->]|[_ ->]]. Qed.

Lemma returns_readData n s : returns (readData n s).
Proof.
  rewrite readData_spec. unfold returns. simpl.
  destruct (n =? 0)%nat; [done|]. by destruct (_ || _).
Qed.

Lemma returns_readCompositionObjects todo : ∀ i count objects size s,
  returns (readCompositionObjects todo i count objects size s).
Proof.
  induction todo as [|todo IH]; intros i count objects size s; [done|].
  cbn [readCompositionObjects]. apply returns_bind; [|by intros [o size'] s'].
  unfold readCompositionObject. apply returns_bind.
  { apply returns_wrap, returns_binary_Read. }
  intros obj s'. repeat case_bool_decide; try done.
  apply returns_bind; [apply returns_binary_Read|done].
Qed.

Lemma returns_readWindowList todo : ∀ windows s, returns (readWindowList todo windows s).
Proof.
  induction todo as [|todo IH]; intros windows s; [done|].
  cbn [readWindowList]. apply returns_bind; [apply returns_binary_Read|done].
Qed.

Lemma returns_readPaletteEntries todo : ∀ i n entries (ids : gset Z) s,
  returns (readPaletteEntries todo i n entries ids s).
Proof.
  induction todo as [|todo IH]; intros i n entries ids s; [done|].
  cbn [readPaletteEntries]. apply returns_bind.
  { apply returns_wrap, returns_binary_Read. }
  intros e s'. by case_bool_decide.
Qed.

Lemma returns_readPresentationComposition segmentSize s :
  returns (readPresentationComposition segmentSize s).
Proof.
  unfold readPresentationComposition. apply returns_bind; [apply returns_binary_Read|].
  intros p s'. destruct (negb _); [done|]. case_bool_decide; [done|].
  apply returns_bind; [apply returns_readCompositionObjects|].
  intros [objects size] s2. by case_bool_decide.
Qed.

Lemma returns_readWindows segmentSize s : returns (readWindows segmentSize s).
Proof.
  unfold readWindows. apply returns_bind; [apply returns_binary_Read|].
  intros w s'. case_bool_decide; [done|]. apply returns_readWindowList.
Qed.

Lemma returns_readPalette segmentSize s : returns (readPalette segmentSize s).
Proof.
  unfold readPalette. case_bool_decide; [done|].
  apply returns_bind; [apply returns_binary_Read|].
  intros p s'. apply returns_bind; [apply returns_readPaletteEntries|done].
Qed.

Lemma returns_readObject segmentSize s : returns (readObject segmentSize s).
Proof.
  unfold readObject. apply returns_bind; [apply returns_binary_Read|].
  intros o s'. destruct (bool_decide (Z.ldiff _ _ ≠ 0)); [done|].
  destruct (bool_decide (_ < 0)); [done|].
  apply returns_bind; [apply returns_readData|done].
Qed.

(** [ReadSegment] returns a segment or an error on every source. *)
Lemma ReadSegment_returns s : returns (ReadSegment s).
Proof.
  unfold ReadSegment. apply returns_bind.
  { apply returns_wrap, returns_binary_Read. }
  intros h s'. case_bool_decide; [done|].
  destruct (knownType (h_SegmentType h)) eqn:Hknown; [|done]. cbn [negb].
  repeat (case_bool_decide;
          [apply returns_bind; [apply returns_wrap|done];
           first [apply returns_readPresentationComposition | apply returns_readWindows
                 | apply returns_readPalette | apply returns_readObject]|]).
  case_bool_decide; [done|]. exfalso. unfold knownType in Hknown.
  rewrite !orb_true_iff, !bool_decide_eq_true in Hknown. tauto.
Qed.

End ReaderProperties.

(** * The properties on concrete streams *)

(** [objectStream] holds a whole object segment, payload included. Read
    from a source that hands over its last bytes together with io.EOF,
    [ReadSegment] returns io.EOF wrapped as the error of the object segment;
    read from a source that reports io.EOF on the call after, the segment
    is decoded. *)
Example ReadSegment_objectStream :
  length (drop 24 objectStream) = 2%nat
  ∧ totalDataLength (mkSource (drop 13 objectStream) [] true io_EOF) - 4 = 2
  ∧ @ReadSegment PGS (mkSource objectStream [] true io_EOF)
    = (Err (ErrODS io_EOF), mkSource [] [] true io_EOF)
  ∧ @ReadSegment PGS (mkSource objectStream [] false io_EOF)
    = (Ok {| PresentationTime := 1000000; DecodingTime := 1000000;
             Data := DataObject
               {| Object_ID := 1; Object_Version := 0;
                  Object_First := true; Object_Last := true;
                  Object_Width := 1; Object_Height := 1;
                  Object_ObjectData := [xaa; xbb] |} |},
       mkSource [] [] false io_EOF).
Proof. repeat split; by vm_compute. Qed.


(** The end marker of [endStream] declares a body of 5 bytes; the segment is
    returned and the 2 bytes behind the header are still in the source. *)
Lemma ReadSegment_end_marker_witness :
  h_SegmentSize (nextHeader (bytesReader endStream)) = 5
  ∧ @ReadSegment PGS (bytesReader endStream)
    = (Ok {| PresentationTime := 1000000; DecodingTime := 1000000; Data := DataNil |},
       bytesReader [xaa; xbb]).
Proof.
  split; [reflexivity|].
  destruct (@ReadSegment_end_marker PGS (bytesReader endStream)) as (H & _ & _);
    [simpl; lia|reflexivity|reflexivity|simpl; lia..|].
  exact H.
Defined.

(** [objectStream] with a declared body size of 0 in place of 13. *)
Lemma ReadSegment_object_size_ignored_witness :
  h_SegmentSize (nextHeader (bytesReader objectStream)) = 13
  ∧ h_SegmentSize (nextHeader (withSegmentSize x00 x00 (bytesReader objectStream))) = 0
  ∧ @ReadSegment PGS (withSegmentSize x00 x00 (bytesReader objectStream))
    = (Ok {| PresentationTime := 1000000; DecodingTime := 1000000;
             Data := DataObject
               {| Object_ID := 1; Object_Version := 0;
                  Object_First := true; Object_Last := true;
                  Object_Width := 1; Object_Height := 1;
                  Object_ObjectData := [xaa; xbb] |} |},
       bytesReader []).
Proof.
  destruct (@ReadSegment_object_size_ignored PGS x00 x00 (bytesReader objectStream))
    as (Hsize & _ & Hsame & _); [simpl; lia|reflexivity|simpl; lia..|].
  split; [reflexivity|]. split; [exact Hsize|].
  rewrite Hsame. reflexivity.
Defined.


(** The object record and the payload of [objectStream], from a source that
    reports io.EOF along with the last byte. *)
Lemma readObject_payload_error_with_last_bytes_witness :
  length (drop 11 (drop 13 objectStream)) = 2%nat
  ∧ totalDataLength (mkSource (drop 13 objectStream) [] true io_EOF) - 4 = 2
  ∧ fst (@readObject PGS 13 (mkSource (drop 13 objectStream) [] true io_EOF)) = Err io_EOF
  ∧ fst (@readObject PGS 13 (mkSource (drop 13 objectStream) [] false io_EOF))
    = Ok {| Object_ID := 1; Object_Version := 0; Object_First := true; Object_Last := true;
            Object_Width := 1; Object_Height := 1; Object_ObjectData := [xaa; xbb] |}.
Proof.
  destruct (@readObject_payload_error_with_last_bytes PGS 13
              (mkSource (drop 13 objectStream) [] true io_EOF))
    as (Herr & _ & Hok); [simpl; lia|reflexivity|reflexivity|reflexivity|reflexivity|].
  split; [reflexivity|]. split; [reflexivity|]. split; [exact Herr|exact Hok].
Defined.


(** [windowBody] under the body sizes 11 and 10, and a window segment with
    no window under the body size 1. *)
Lemma readWindows_size_witness :
  @readWindows 11 (bytesReader windowBody)
    = (Err (ErrWindowCount 11 10 1), bytesReader (drop 1 windowBody))
  ∧ @readWindows 1 (bytesReader [x00]) = (Ok [], bytesReader [])
  ∧ fst (readWindows 10 (bytesReader windowBody))
    = Ok [{| Window_ID := 0; Window_X := 16; Window_Y := 32;
             Window_Width := 48; Window_Height := 64 |}]
  ∧ data (snd (readWindows 10 (bytesReader windowBody))) = [].
Proof.
  destruct (@readWindows_size 11 (bytesReader windowBody)) as (Hbad & _ & _); [vm_compute; lia|].
  destruct (@readWindows_size 1 (bytesReader [x00])) as (_ & Hnone & _); [vm_compute; lia|].
  destruct (@readWindows_size 10 (bytesReader windowBody)) as (_ & _ & Honly & Hheld);
    [vm_compute; lia|].
  destruct (Hheld eq_refl ltac:(vm_compute; lia)) as [Hws Hdata].
  split; [exact (Hbad ltac:(by vm_compute))|]. split; [exact (Hnone eq_refl eq_refl)|].
  split; [exact Hws|].
  destruct (readWindows 10 (bytesReader windowBody)) as [r s'] eqn:Hrun.
  cbn [fst snd] in *. subst r.
  exact (proj2 (proj2 (proj2 (proj2 (Honly _ _ eq_refl))))).
Defined.


(** [paletteTwice]: the entry at index 1 repeats the ID 5 of the entry at
    index 0. *)
Lemma readPalette_duplicate_ID_witness :
  fst (readPalette 12 (bytesReader paletteTwice)) = Err (ErrIDReused 1 2 5).
Proof.
  destruct (readPalette_duplicate_ID 12 (bytesReader paletteTwice)) as [Hdup _];
    [lia|reflexivity|vm_compute; lia|].
  destruct (Hdup 0%nat 1%nat 5 ltac:(lia) eq_refl eq_refl)
    as (k & id & Hk & Herr & Hid & Hin & _).
  destruct k as [|[|k]]; [|injection Hid as <-; exact Herr|lia].
  by apply elem_of_nil in Hin.
Defined.

(** A source with no byte, a source that ends after 3 bytes of a header, a
    header with the magic number 0x5048 and a header with the type tag 0x99. *)
Lemma ReadSegment_EOF_and_header_errors_witness :
  fst (@ReadSegment PGS (bytesReader [])) = Err io_EOF
  ∧ @ReadSegment PGS (bytesReader [x50; x47; x00])
    = (Err (ErrSegmentHeader io_ErrUnexpectedEOF), bytesReader [])
  ∧ @ReadSegment PGS (bytesReader [x50; x48; x00; x00; x00; x5a; x00; x00; x00; x5a;
                                   x80; x00; x00])
    = (Err (ErrMagicNumber 0x5048), bytesReader [])
  ∧ @ReadSegment PGS (bytesReader [x50; x47; x00; x00; x00; x5a; x00; x00; x00; x5a;
                                   x99; x00; x00])
    = (Err (ErrSegmentType 0x99), bytesReader []).
Proof.
  split_and!.
  - by apply (@ReadSegment_EOF_and_header_errors PGS (bytesReader [])).
  - destruct (@ReadSegment_EOF_and_header_errors PGS (bytesReader [x50; x47; x00]))
      as (_ & Hshort & _).
    exact (proj1 (Hshort ltac:(done) ltac:(vm_compute; lia) eq_refl)).
  - destruct (@ReadSegment_EOF_and_header_errors PGS
                (bytesReader [x50; x48; x00; x00; x00; x5a; x00; x00; x00; x5a;
                              x80; x00; x00])) as (_ & _ & Hmagic & _).
    exact (proj1 (Hmagic ltac:(vm_compute; lia) ltac:(by vm_compute))).
  - destruct (@ReadSegment_EOF_and_header_errors PGS
                (bytesReader [x50; x47; x00; x00; x00; x5a; x00; x00; x00; x5a;
                              x99; x00; x00])) as (_ & _ & _ & Htype).
    exact (proj1 (Htype ltac:(vm_compute; lia) eq_refl eq_refl)).
Defined.

(** A composition state of 0x20, a palette update flag of 0x01 and an object
    flag of 0x01 in place of the values of [compositionBody], and the
    cropped object of [croppedBody]. *)
Lemma readPresentationComposition_legal_values_witness :
  @readPresentationComposition PGS 19
     (bytesReader [x07; x80; x04; x38; x10; x00; x01; x20; x00; x00; x01])
    = (Err (ErrCompositionState 0x20), bytesReader [])
  ∧ @readPresentationComposition PGS 19
       (bytesReader [x07; x80; x04; x38; x10; x00; x01; x80; x01; x00; x01])
    = (Err (ErrPaletteUpdateFlag 0x01), bytesReader [])
  ∧ fst (@readPresentationComposition PGS 19
           (bytesReader [x07; x80; x04; x38; x10; x00; x01; x80; x00; x00; x01;
                         x00; x00; x00; x01; x00; x10; x00; x20]))
    = Err (ErrObjectFlag 1 1 0x01)
  ∧ Forall2 (λ o f, Z.ldiff f 0x40 = 0 ∧ (is_Some (CO_Crop o) ↔ f = 0x40))
      [{| CO_ObjectID := 0; CO_WindowID := 0; CO_X := 16; CO_Y := 32;
          CO_Crop := Some {| Crop_X := 1; Crop_Y := 2; Crop_Width := 48;
                             Crop_Height := 64 |} |}]
      [0x40].
Proof.
  split_and!.
  - destruct (@readPresentationComposition_legal_values PGS 19
                (bytesReader [x07; x80; x04; x38; x10; x00; x01; x20; x00; x00; x01]))
      as (Hstate & _).
    apply Hstate; [vm_compute; lia|]. vm_compute. intros [|[|]]; lia.
  - destruct (@readPresentationComposition_legal_values PGS 19
                (bytesReader [x07; x80; x04; x38; x10; x00; x01; x80; x01; x00; x01]))
      as (_ & Hflag & _).
    apply Hflag; [vm_compute; lia|right; right; reflexivity|by vm_compute].
  - destruct (@readPresentationComposition_legal_values PGS 19
                (bytesReader [x07; x80; x04; x38; x10; x00; x01; x80; x00; x00; x01;
                              x00; x00; x00; x01; x00; x10; x00; x20]))
      as (_ & _ & Hobject & _).
    apply (Hobject ltac:(vm_compute; lia) ltac:(right; right; reflexivity) eq_refl
             0%nat 0x01 eq_refl ltac:(by vm_compute)).
    intros j' f' Hj'. lia.
  - destruct (@readPresentationComposition_legal_values PGS 27 (bytesReader croppedBody))
      as (_ & _ & _ & Hok).
    exact (proj2 (proj2 (Hok _ _ eq_refl))).
Defined.

(** A stream that ends right behind the header of a presentation composition
    segment: the body parser meets io.EOF at its first read and [ReadSegment]
    wraps it with [%w]. The error is not io.EOF, which is what the test of
    [ReadSegment] itself compares with, but [errors.Is] still finds io.EOF in
    it. *)
Example ReadSegment_body_EOF_wrapped :
  @ReadSegment PGS (bytesReader [x50; x47; x00; x00; x00; x5a; x00; x00; x00; x5a;
                                 x16; x00; x13])
    = (Err (ErrPCS io_EOF), bytesReader [])
  ∧ errors_Is (ErrPCS io_EOF) io_EOF = true.
Proof. split; by vm_compute. Qed.

(** [windowBody] under the body size 10. *)
Example readWindows_windowBody :
  readWindows 10 (bytesReader windowBody)
    = (Ok [{| Window_ID := 0; Window_X := 16; Window_Y := 32;
              Window_Width := 48; Window_Height := 64 |}],
       bytesReader []).
Proof. by vm_compute. Qed.

(** * Further properties of the reader *)

Section FurtherProperties.
Context {K : Constants}.

(** ** The result does not depend on how the source splits its reads *)

Lemma sameBytes_refl s : sameBytes s s.
Proof. done. Qed.

Lemma sameBytes_advance k s1 s2 :
  sameBytes s1 s2 → sameBytes (advance k s1) (advance k s2).
Proof. intros (Hd & He & Ht). unfold sameBytes. simpl. by rewrite Hd, He, Ht. Qed.

Lemma respects_ret {A} (a : A) : respects (ret a).
Proof. by intros s1 s2 Hs. Qed.

Lemma respects_fail {A} e : respects (@fail A e).
Proof. by intros s1 s2 Hs. Qed.

Lemma respects_bind {A B} (m : M A) (f : A → M B) :
  respects m → (∀ a, respects (f a)) → respects (bind m f).
Proof.
  intros Hm Hf s1 s2 Hs. unfold bind. destruct (Hm s1 s2 Hs) as [Hfst Hsnd].
  destruct (m s1) as [r1 s1'], (m s2) as [r2 s2']. simpl in *. subst r2.
  destruct r1; try done. by apply Hf.
Qed.

Lemma respects_wrap {A} (w : error → error) (m : M A) :
  respects m → respects (wrap w m).
Proof.
  intros Hm s1 s2 Hs. unfold wrap. destruct (Hm s1 s2 Hs) as [Hfst Hsnd].
  destruct (m s1) as [r1 s1'], (m s2) as [r2 s2']. simpl in *. subst r2.
  by destruct r1.
Qed.

Lemma respects_binary_Read {A} size (decode : list byte → A) :
  respects (binary_Read size decode).
Proof.
  intros s1 s2 Hs. pose proof Hs as (Hd & He & Ht).
  destruct (binary_Read_cases size decode s1) as [[Hlen ->]|[Hlen ->]].
  - rewrite binary_Read_ok by (by rewrite <- Hd).
    split; [simpl; by rewrite Hd|by apply sameBytes_advance].
  - rewrite binary_Read_short by (by rewrite <- Hd).
    split; [|by apply sameBytes_advance]. simpl. unfold shortRead. by rewrite Hd, Ht.
Qed.

Lemma respects_readData n : respects (readData n).
Proof.
  intros s1 s2 Hs. pose proof Hs as (Hd & He & Ht). rewrite !readData_spec.
  split; [|by apply sameBytes_advance]. simpl. by rewrite Hd, He, Ht.
Qed.

Lemma respects_readCompositionObjects todo : ∀ i count objects size,
  respects (readCompositionObjects todo i count objects size).
Proof.
  induction todo as [|todo IH]; intros i count objects size; [apply respects_ret|].
  cbn [readCompositionObjects]. apply respects_bind; [|by intros [o size']].
  unfold readCompositionObject. apply respects_bind.
  { apply respects_wrap, respects_binary_Read. }
  intros obj. destruct (bool_decide (Z.ldiff _ _ ≠ 0)); [apply respects_fail|].
  destruct (bool_decide (pco_ObjectCropped obj = croppedForce)); [|apply respects_ret].
  apply respects_bind; [apply respects_binary_Read|]. intros crop. apply respects_ret.
Qed.

Lemma respects_readWindowList todo : ∀ windows, respects (readWindowList todo windows).
Proof.
  induction todo as [|todo IH]; intros windows; [apply respects_ret|].
  cbn [readWindowList]. apply respects_bind; [apply respects_binary_Read|done].
Qed.

Lemma respects_readPaletteEntries todo : ∀ i n entries (ids : gset Z),
  respects (readPaletteEntries todo i n entries ids).
Proof.
  induction todo as [|todo IH]; intros i n entries ids; [apply respects_ret|].
  cbn [readPaletteEntries]. apply respects_bind.
  { apply respects_wrap, respects_binary_Read. }
  intros e. destruct (bool_decide (Entry_ID e ∈ ids)); [apply respects_fail|done].
Qed.

Lemma respects_readPresentationComposition segmentSize :
  respects (readPresentationComposition segmentSize).
Proof.
  unfold readPresentationComposition. apply respects_bind; [apply respects_binary_Read|].
  intros p. destruct (negb _); [apply respects_fail|].
  destruct (bool_decide (Z.ldiff _ _ ≠ 0)); [apply respects_fail|].
  apply respects_bind; [apply respects_readCompositionObjects|].
  intros [objects size]. destruct (bool_decide (size ≠ segmentSize));
    [apply respects_fail|apply respects_ret].
Qed.

Lemma respects_readWindows segmentSize : respects (readWindows segmentSize).
Proof.
  unfold readWindows. apply respects_bind; [apply respects_binary_Read|].
  intros w. destruct (bool_decide _); [apply respects_fail|apply respects_readWindowList].
Qed.

Lemma respects_readPalette segmentSize : respects (readPalette segmentSize).
Proof.
  unfold readPalette. destruct (bool_decide _); [apply respects_fail|].
  apply respects_bind; [apply respects_binary_Read|].
  intros p. apply respects_bind; [apply respects_readPaletteEntries|].
  intros entries. apply respects_ret.
Qed.

Lemma respects_readObject segmentSize : respects (readObject segmentSize).
Proof.
  unfold readObject. apply respects_bind; [apply respects_binary_Read|].
  intros o. destruct (bool_decide (Z.ldiff _ _ ≠ 0)); [apply respects_fail|].
  destruct (bool_decide (_ < 0)); [apply respects_fail|].
  apply respects_bind; [apply respects_readData|]. intros d. apply respects_ret.
Qed.

Lemma respects_ReadSegment : respects ReadSegment.
Proof.
  unfold ReadSegment. apply respects_bind.
  { apply respects_wrap, respects_binary_Read. }
  intros h. destruct (bool_decide (h_MagicNumber h ≠ _)); [apply respects_fail|].
  destruct (negb _); [apply respects_fail|].
  repeat (destruct (bool_decide (h_SegmentType h = _));
          [first [apply respects_ret
                 |apply respects_bind; [apply respects_wrap|intros ?; apply respects_ret];
                  first [apply respects_readPresentationComposition | apply respects_readWindows
                        | apply respects_readPalette | apply respects_readObject]]|]).
  by intros s1 s2 Hs.
Qed.

(** X1. Short reads do not change what is decoded: two sources that deliver
    the same bytes and end the same way, however differently they split the
    bytes over their calls of [Read], give the same segment or the same
    error, and leave the same bytes. *)
Theorem ReadSegment_short_reads (bytes : list byte) (sched1 sched2 : list nat)
    (e : bool) (t : error) :
  fst (ReadSegment (mkSource bytes sched1 e t)) = fst (ReadSegment (mkSource bytes sched2 e t))
  ∧ data (snd (ReadSegment (mkSource bytes sched1 e t)))
    = data (snd (ReadSegment (mkSource bytes sched2 e t))).
Proof.
  destruct (respects_ReadSegment (mkSource bytes sched1 e t) (mkSource bytes sched2 e t))
    as (Hfst & Hdata & _); done.
Qed.

(** X2. [ReadSegment] returns on every source: no loop over [Read] runs out
    of its budget, and the panic of the default case of the second switch is
    never reached, whatever the type tag. *)
Theorem ReadSegment_never_panics (s : Source) :
  fst (ReadSegment s) ≠ Panic ∧ fst (ReadSegment s) ≠ Stuck.
Proof.
  pose proof (ReadSegment_returns s) as Hret. unfold returns in Hret.
  by destruct (fst (ReadSegment s)).
Qed.

(** ** What a decoded segment has consumed *)

Lemma be16_range buf i : 0 ≤ be16 buf i < 65536.
Proof.
  unfold be16. pose proof (at8_range buf i) as Ha. pose proof (at8_range buf (i + 1)) as Hb.
  rewrite Z.shiftl_mul_pow2 by lia. change (2 ^ 8) with 256.
  pose proof (Z.add_lor_land (at8 buf i * 256) (at8 buf (i + 1))) as Hadd.
  assert (0 ≤ Z.land (at8 buf i * 256) (at8 buf (i + 1))) by (apply Z.land_nonneg; lia).
  assert (0 ≤ Z.lor (at8 buf i * 256) (at8 buf (i + 1))) by (apply Z.lor_nonneg; lia).
  lia.
Qed.

(** The entries a run of the palette loop returns are the next [todo]
    records of the source, which it has consumed. *)
Lemma readPaletteEntries_consumes todo : ∀ i n entries (ids : gset Z) s r s',
  readPaletteEntries todo i n entries ids s = (Ok r, s') →
  (5 * todo ≤ length (data s))%nat
  ∧ r = entries ++ paletteBody todo (data s)
  ∧ data s' = drop (5 * todo) (data s).
Proof.
  induction todo as [|todo IH]; intros i n entries ids s r s'.
  - simpl. intros [= <- <-]. rewrite app_nil_r. split_and!; [lia|done..].
  - destruct (Nat.le_gt_cases 5 (length (data s))) as [Hlen|Hlen]; cycle 1.
    { cbn [readPaletteEntries]. unfold bind at 1, wrap.
      by rewrite binary_Read_short by done. }
    rewrite readPaletteEntries_step by done.
    case_bool_decide; [done|].
    intros (Hlen' & -> & ->)%IH. rewrite length_data_advance in Hlen'.
    rewrite data_advance, drop_drop, <- app_assoc. split_and!; [lia|done|f_equal; lia].
Qed.

(** The objects a run of the object loop returns were read from the bytes
    it counted in [size]. *)
Lemma readCompositionObjects_consumes todo : ∀ i count objects size s objects' size' s',
  readCompositionObjects todo i count objects size s = (Ok (objects', size'), s') →
  size ≤ size'
  ∧ (Z.to_nat (size' - size) ≤ length (data s))%nat
  ∧ data s' = drop (Z.to_nat (size' - size)) (data s).
Proof.
  induction todo as [|todo IH]; intros i count objects size s objects' size' s'.
  - simpl. intros [= _ <- <-]. rewrite Z.sub_diag. split_and!; [lia|simpl; lia|done].
  - cbn [readCompositionObjects]. unfold bind at 1.
    destruct (readCompositionObject i count size s) as [[[o size1]|e| |] s1] eqn:Hbody; try done.
    apply readCompositionObject_ok in Hbody as (Hlen & _ & Hcases).
    intros (Hle & Hlen' & ->)%IH.
    destruct Hcases as [(_ & Hlen16 & _ & -> & Hdata)|(_ & _ & -> & Hdata)];
      rewrite Hdata in *; rewrite length_drop in Hlen'; rewrite drop_drop;
      (split_and!; [lia|lia|f_equal; lia]).
Qed.

(** What a call of [readObject] that returns an object has read. *)
Lemma readObject_consumes segmentSize s obj s' :
  readObject segmentSize s = (Ok obj, s') →
  4 ≤ totalDataLength s
  ∧ (Z.to_nat (7 + totalDataLength s) ≤ length (data s))%nat
  ∧ data s' = drop (Z.to_nat (7 + totalDataLength s)) (data s).
Proof.
  destruct (Nat.le_gt_cases 11 (length (data s))) as [Hlen|Hlen]; cycle 1.
  { unfold readObject, bind at 1. by rewrite binary_Read_short by done. }
  destruct (decide (Z.ldiff (ods_SequenceFlag (nextOds s))
                      (Z.lor firstInSequence lastInSequence) = 0)) as [Hflag|Hflag]; cycle 1.
  { unfold readObject, bind at 1. rewrite binary_Read_ok by done. fold (nextOds s).
    by rewrite bool_decide_eq_true_2. }
  rewrite readObject_unfold by done. case_bool_decide as Hneg; [done|].
  unfold bind. rewrite readData_spec. rewrite length_data_advance.
  set (n := Z.to_nat (totalDataLength s - 4)).
  assert (Z.to_nat (7 + totalDataLength s) = (11 + n)%nat) as -> by lia.
  destruct (Nat.eqb_spec n 0) as [Hz|Hz].
  - intros [= _ <-]. rewrite Hz, advance_0, Nat.add_0_r. split_and!; [lia|lia|done].
  - destruct (Nat.ltb_spec (length (data s) - 11) n); [done|]. cbn [orb].
    destruct (_ && _); [done|]. intros [= _ <-].
    rewrite !data_advance, drop_drop. split_and!; [lia|lia|done].
Qed.

Lemma readPresentationComposition_consumes segmentSize s pc s' :
  readPresentationComposition segmentSize s = (Ok pc, s') →
  11 ≤ segmentSize
  ∧ (Z.to_nat segmentSize ≤ length (data s))%nat
  ∧ data s' = drop (Z.to_nat segmentSize) (data s).
Proof.
  intros Hok.
  destruct (readPresentationComposition_ok _ _ _ _ Hok) as (Hlen & Hstate & Hflag).
  rewrite readPresentationComposition_objects in Hok by done.
  destruct (readCompositionObjects _ _ _ _ _ _) as [[[objects size]|e| |] s2] eqn:Hloop;
    try done.
  case_bool_decide as Hsize; [done|]. injection Hok as _ <-.
  assert (size = segmentSize) as ->.
  { destruct (decide (size = segmentSize)); [done|by destruct Hsize]. }
  apply readCompositionObjects_consumes in Hloop as (Hle & Hlen' & ->).
  rewrite length_data_advance in Hlen'. rewrite data_advance, drop_drop.
  split_and!; [lia|lia|f_equal; lia].
Qed.

Lemma readWindows_consumes segmentSize s ws s' :
  readWindows segmentSize s = (Ok ws, s') →
  1 ≤ segmentSize
  ∧ (Z.to_nat segmentSize ≤ length (data s))%nat
  ∧ data s' = drop (Z.to_nat segmentSize) (data s)
  ∧ ws = windowRecords (Z.to_nat (wds_WindowCount (nextWds s))) (drop 1 (data s)).
Proof.
  unfold readWindows, bind at 1.
  destruct (binary_Read_cases 1 decode_wds s) as [[Hlen ->]|[Hlen ->]]; [|done].
  fold (nextWds s). set (count := wds_WindowCount (nextWds s)).
  assert (Hcount : 0 ≤ count < 256) by apply at8_range.
  rewrite windowsSize_exact by done. case_bool_decide as Hsize; [done|].
  assert (segmentSize = 9 * count + 1) as ->.
  { destruct (decide (segmentSize = 9 * count + 1)); [done|by destruct Hsize]. }
  intros Hok.
  pose proof (readWindowList_spec (Z.to_nat count) [] (advance 1 s)) as Hspec.
  rewrite Hok, length_data_advance, data_advance in Hspec. cbn [fst snd] in Hspec.
  destruct (decide _) as [Hall|]; [|done]. destruct Hspec as [[= ->] ->].
  rewrite drop_drop. split_and!; [lia|lia|f_equal; lia|done].
Qed.

Lemma readPalette_consumes segmentSize s p s' :
  0 ≤ segmentSize < 65536 →
  readPalette segmentSize s = (Ok p, s') →
  (Z.to_nat segmentSize ≤ length (data s))%nat
  ∧ data s' = drop (Z.to_nat segmentSize) (data s)
  ∧ Palette_Entries p
    = paletteBody (Z.to_nat ((segmentSize - 2) / 5)) (drop 2 (data s)).
Proof.
  intros Hrange. unfold readPalette. case_bool_decide as Hmod; [done|].
  assert (Hmod' : segmentSize mod 5 = 2).
  { destruct (decide (segmentSize mod 5 = 2)); [done|by destruct Hmod]. }
  destruct (paletteCount_exact segmentSize Hrange Hmod') as [-> Hpos].
  assert (Hsize : segmentSize = 5 * ((segmentSize - 2) / 5) + 2).
  { pose proof (Z.div_mod (segmentSize - 2) 5 ltac:(lia)) as Hdm.
    assert ((segmentSize - 2) mod 5 = 0); [|lia]. by rewrite Zminus_mod, Hmod'. }
  unfold bind at 1.
  destruct (binary_Read_cases 2 decode_pds s) as [[Hlen ->]|[Hlen ->]]; [|done].
  unfold bind.
  destruct (readPaletteEntries _ _ _ _ _ _) as [[r|e| |] s2] eqn:Hloop; try done.
  intros [= <- <-]. apply readPaletteEntries_consumes in Hloop as (Hlen' & -> & ->).
  rewrite length_data_advance in Hlen'. rewrite !data_advance, drop_drop.
  split_and!; [lia|f_equal; lia|done].
Qed.


(** ** Whole and truncated bodies *)

Lemma shortRead_shortReadAt k s :
  (0 < k)%nat → (length (data s) < k)%nat →
  shortRead s = shortReadAt (length (data s) mod k) (term s).
Proof.
  intros Hk Hlen. unfold shortRead, shortReadAt. rewrite Nat.mod_small by done.
  by destruct (data s).
Qed.

(** X4. A window segment whose body size fits its count: if the source
    holds the body, the windows are the count records behind the count
    byte, in their order; if the source ends before, [readWindows] returns
    the error of the read that fell short as it is: the error of the source
    if the source ends between two records, io.ErrUnexpectedEOF in place of
    io.EOF if it ends inside a record. *)
Theorem readWindows_records (segmentSize : Z) (s : Source) :
  (1 ≤ length (data s))%nat →
  segmentSize = 9 * wds_WindowCount (nextWds s) + 1 →
  fst (readWindows segmentSize s) =
    if decide (Z.to_nat segmentSize ≤ length (data s))%nat
    then Ok (windowRecords (Z.to_nat (wds_WindowCount (nextWds s))) (drop 1 (data s)))
    else Err (shortReadAt ((length (data s) - 1) mod 9) (term s)).
Proof.
  intros Hlen ->. set (count := wds_WindowCount (nextWds s)).
  assert (Hcount : 0 ≤ count < 256) by apply at8_range.
  unfold readWindows, bind at 1. rewrite binary_Read_ok by done.
  fold (nextWds s). fold count. rewrite windowsSize_exact by done.
  rewrite bool_decide_eq_false_2 by (intros Hn; by apply Hn).
  pose proof (readWindowList_spec (Z.to_nat count) [] (advance 1 s)) as Hspec.
  rewrite length_data_advance, data_advance, term_advance in Hspec.
  destruct (decide (9 * Z.to_nat count ≤ length (data s) - 1)%nat).
  - rewrite decide_True by lia. by destruct Hspec as [-> _].
  - by rewrite decide_False by lia.
Qed.

(** The palette loop on a source that ends before the last of the [todo]
    entries: if the IDs of the entries the source holds in full differ from
    each other and from those seen before, the loop fails at the entry the
    source ends in, with its index and the error of the read. *)
Lemma readPaletteEntries_truncated todo : ∀ i n entries (ids : gset Z) s,
  (length (data s) < 5 * todo)%nat →
  let held := (length (data s) / 5)%nat in
  NoDup (Entry_ID <$> paletteBody held (data s)) →
  (∀ x, x ∈ Entry_ID <$> paletteBody held (data s) → x ∉ ids) →
  fst (readPaletteEntries todo i n entries ids s)
    = Err (ErrPaletteEntry (Z.of_nat (i + held)) n
             (shortReadAt (length (data s) mod 5) (term s))).
Proof.
  induction todo as [|todo IH]; intros i n entries ids s Hlen held; [lia|].
  destruct (Nat.le_gt_cases 5 (length (data s))) as [Hfive|Hfive].
  - assert (Hheld : held = S ((length (data s) - 5) / 5)).
    { subst held. replace (length (data s)) with ((length (data s) - 5) + 1 * 5)%nat at 1 by lia.
      rewrite Nat.div_add by lia. lia. }
    assert (Hmod : ((length (data s) - 5) mod 5 = length (data s) mod 5)%nat).
    { replace (length (data s)) with ((length (data s) - 5) + 1 * 5)%nat at 2 by lia.
      symmetry. apply Nat.Div0.mod_add. }
    rewrite Hheld. cbn [paletteBody fmap list_fmap]. intros Hnodup Hfresh.
    apply NoDup_cons in Hnodup as [Hnotin Hnodup].
    rewrite readPaletteEntries_step by done.
    rewrite bool_decide_eq_false_2 by (apply Hfresh; by left).
    rewrite IH; rewrite ?length_data_advance, ?data_advance, ?term_advance.
    + rewrite Hmod. do 2 f_equal. lia.
    + lia.
    + done.
    + intros x Hx. apply not_elem_of_union. split.
      * intros ->%elem_of_singleton. done.
      * apply Hfresh. by right.
  - intros _ _. assert (held = 0%nat) as -> by (subst held; by apply Nat.div_small).
    cbn [readPaletteEntries]. unfold bind at 1, wrap. rewrite binary_Read_short by done.
    cbn [fst]. rewrite Nat.add_0_r. by rewrite (shortRead_shortReadAt 5) by lia.
Qed.

(** X5. A palette segment the source holds in full and whose entry IDs
    differ from each other is decoded to the palette ID and version and to
    its entries, the 5-byte records behind them, in their order. *)
Theorem readPalette_decodes (segmentSize : Z) (s : Source) :
  0 ≤ segmentSize < 65536 →
  segmentSize mod 5 = 2 →
  (Z.to_nat segmentSize ≤ length (data s))%nat →
  let body := paletteBody (Z.to_nat ((segmentSize - 2) / 5)) (drop 2 (data s)) in
  NoDup (Entry_ID <$> body) →
  fst (readPalette segmentSize s)
    = Ok {| Palette_ID := pds_PaletteID (nextPds s);
            Palette_Version := pds_PaletteVersion (nextPds s);
            Palette_Entries := body |}.
Proof.
  intros Hrange Hmod Hlen body Hnodup.
  destruct (paletteCount_exact segmentSize Hrange Hmod) as [Hn Hpos].
  assert (Hsize : segmentSize = 5 * ((segmentSize - 2) / 5) + 2).
  { pose proof (Z.div_mod (segmentSize - 2) 5 ltac:(lia)) as Hdm.
    assert ((segmentSize - 2) mod 5 = 0); [|lia]. by rewrite Zminus_mod, Hmod. }
  rewrite readPalette_unfold by (done || lia). rewrite Hn.
  destruct (readPaletteEntries_body (Z.to_nat ((segmentSize - 2) / 5)) 0
              ((segmentSize - 2) / 5) [] ∅ (advance 2 s))
    as [(_ & _ & Hok)|(j & id & Hj & Hin & Hnd & _ & _)].
  { rewrite length_data_advance. lia. }
  - unfold bind. destruct (readPaletteEntries _ _ _ _ _ _) as [r s1].
    simpl in Hok. by subst r.
  - exfalso. rewrite data_advance in *. fold body in Hj, Hin, Hnd.
    destruct Hin as [Hin|Hin]; [by apply not_elem_of_empty in Hin|].
    apply list_elem_of_lookup in Hin as [i Hi].
    apply lookup_take_Some in Hi as [Hi Hlt].
    pose proof (NoDup_lookup _ _ _ _ Hnodup Hi Hj). lia.
Qed.

(** X6. A palette segment the source ends in: if the entries the source
    holds in full have IDs that differ from each other, [readPalette] fails
    at the entry the source ends in, with the index of that entry, the
    declared count and the error of the read: the error of the source if
    the source ends between two entries, io.ErrUnexpectedEOF in place of
    io.EOF if it ends inside an entry. *)
Theorem readPalette_truncated (segmentSize : Z) (s : Source) :
  0 ≤ segmentSize < 65536 →
  segmentSize mod 5 = 2 →
  (2 ≤ length (data s) < Z.to_nat segmentSize)%nat →
  let held := ((length (data s) - 2) / 5)%nat in
  NoDup (Entry_ID <$> paletteBody held (drop 2 (data s))) →
  fst (readPalette segmentSize s)
    = Err (ErrPaletteEntry (Z.of_nat held) ((segmentSize - 2) / 5)
             (shortReadAt ((length (data s) - 2) mod 5) (term s))).
Proof.
  intros Hrange Hmod Hlen held Hnodup.
  destruct (paletteCount_exact segmentSize Hrange Hmod) as [Hn Hpos].
  assert (Hsize : segmentSize = 5 * ((segmentSize - 2) / 5) + 2).
  { pose proof (Z.div_mod (segmentSize - 2) 5 ltac:(lia)) as Hdm.
    assert ((segmentSize - 2) mod 5 = 0); [|lia]. by rewrite Zminus_mod, Hmod. }
  rewrite readPalette_unfold by (done || lia). rewrite Hn. unfold bind.
  pose proof (readPaletteEntries_truncated (Z.to_nat ((segmentSize - 2) / 5)) 0
                ((segmentSize - 2) / 5) [] ∅ (advance 2 s)) as Htrunc.
  rewrite length_data_advance, data_advance, term_advance in Htrunc.
  destruct (readPaletteEntries _ _ _ _ _ _) as [r s1]. cbn [fst] in *.
  rewrite Htrunc; [done|lia|done|].
  intros x _. apply not_elem_of_empty.
Qed.

(** The object loop on a source that holds the next [todo] object records
    with their crop records, all with legal flags: it returns their objects
    and has counted their bytes. *)
Lemma readCompositionObjects_records todo : ∀ i count objects size s,
  let new := objectRecords todo (data s) in
  let need := (8 * todo + 8 * length (filter (λ o, cropped o = true) new))%nat in
  (need ≤ length (data s))%nat →
  Forall (λ f, Z.ldiff f croppedForce = 0) (objectFlags todo (data s)) →
  fst (readCompositionObjects todo i count objects size s)
    = Ok (objects ++ new, size + Z.of_nat need).
Proof.
  induction todo as [|todo IH]; intros i count objects size s new need.
  - intros _ _. subst new need. simpl. by rewrite app_nil_r, Z.add_0_r.
  - subst new need. cbn [objectRecords objectFlags]. fold (nextObject s).
    intros Hneed Hflags.
    assert (Hlen : (8 ≤ length (data s))%nat) by lia.
    destruct (Nat.ltb_spec (length (data s)) 8) as [|_]; [lia|].
    apply Forall_cons in Hflags as [Hlegal Hflags].
    cbn [readCompositionObjects]. unfold bind at 1.
    rewrite readCompositionObject_spec by done.
    rewrite bool_decide_eq_false_2 by (intros Hn; by apply Hn).
    destruct (bool_decide (pco_ObjectCropped (nextObject s) = croppedForce)).
    + rewrite filter_cons_True in Hneed |- * by done. cbn [length] in Hneed |- *.
      destruct (Nat.ltb_spec (length (data s)) 16) as [|_]; [lia|].
      assert (Hlen8 : (8 ≤ length (data (advance 8 s)))%nat)
        by (rewrite length_data_advance; lia).
      unfold bind at 1.
      rewrite (binary_Read_ok 8 decode_CompositionObjectCrop (advance 8 s) Hlen8).
      cbn [ret]. rewrite IH; rewrite ?data_advance, ?drop_drop, ?length_drop;
        change (8 + 8)%nat with 16%nat.
      * rewrite <- app_assoc. cbn [app]. do 2 f_equal. lia.
      * lia.
      * done.
    + rewrite filter_cons_False in Hneed |- * by done.
      rewrite IH; rewrite ?data_advance, ?length_drop.
      * rewrite <- app_assoc. cbn [app]. do 2 f_equal. lia.
      * lia.
      * done.
Qed.

Lemma length_objectRecords n : ∀ d, length (objectRecords n d) = n.
Proof.
  induction n as [|n IH]; intros d; [done|]. cbn [objectRecords].
  destruct (bool_decide _); cbn [length]; by rewrite IH.
Qed.

(** X7. A presentation composition segment the source holds in full, with a
    known state, legal flags and a body size that fits its records, is
    decoded to the fields of its first record and to the objects of its
    object records, each with the crop record behind it if its flag is
    [croppedForce], in their order. *)
Theorem readPresentationComposition_decodes (segmentSize : Z) (s : Source) :
  (11 ≤ length (data s))%nat →
  legalState (pcs_CompositionState (nextPcs s)) →
  Z.ldiff (pcs_PaletteUpdateFlag (nextPcs s)) pufTrue = 0 →
  let count := Z.to_nat (pcs_ObjectCount (nextPcs s)) in
  let objects := objectRecords count (drop 11 (data s)) in
  Forall (λ f, Z.ldiff f croppedForce = 0) (objectFlags count (drop 11 (data s))) →
  segmentSize = compositionSize objects →
  (Z.to_nat segmentSize ≤ length (data s))%nat →
  fst (readPresentationComposition segmentSize s) = Ok (compositionOf (nextPcs s) objects).
Proof.
  intros Hlen Hstate Hflag count objects Hflags Hsize Hheld.
  assert (Hlength : length objects = count) by apply length_objectRecords.
  rewrite readPresentationComposition_objects by done.
  pose proof (readCompositionObjects_records count 0 (pcs_ObjectCount (nextPcs s)) [] 11
                (advance 11 s)) as Hloop.
  cbv zeta in Hloop. rewrite data_advance, length_drop in Hloop. fold objects in Hloop.
  unfold compositionSize in Hsize. rewrite Hlength in Hsize. fold count.
  destruct (readCompositionObjects _ _ _ _ _ _) as [r s2]. cbn [fst] in Hloop.
  rewrite Hloop by (done || lia). cbn [app].
  rewrite bool_decide_eq_false_2 by lia. done.
Qed.

(** ** Flags and sizes *)

(** A value with no bit outside a mask is the part of it under the mask. *)
Lemma ldiff_0_land f mask : Z.ldiff f mask = 0 → Z.land f mask = f.
Proof.
  intros Hdiff. apply Z.bits_inj'. intros n Hn. rewrite Z.land_spec.
  assert (Z.testbit (Z.ldiff f mask) n = false) as Hbit by (by rewrite Hdiff, Z.bits_0).
  rewrite Z.ldiff_spec in Hbit. by destruct (Z.testbit f n), (Z.testbit mask n).
Qed.

(** X8. In a decoded presentation composition the palette update is set
    exactly if the palette update flag of the segment is not zero: the mask
    check has left no other bit to the test against [pufTrue]. *)
Theorem readPresentationComposition_PaletteUpdate (segmentSize : Z) (s : Source)
    (pc : PresentationComposition) (s' : Source) :
  readPresentationComposition segmentSize s = (Ok pc, s') →
  PC_PaletteUpdate pc = bool_decide (pcs_PaletteUpdateFlag (nextPcs s) ≠ 0)
  ∧ PC_CompositionState pc = pcs_CompositionState (nextPcs s)
  ∧ legalState (PC_CompositionState pc).
Proof.
  intros Hok.
  destruct (readPresentationComposition_ok _ _ _ _ Hok) as (Hlen & Hstate & Hflag).
  rewrite readPresentationComposition_objects in Hok by done.
  destruct (readCompositionObjects _ _ _ _ _ _) as [[[objects size]|e| |] s2]; try done.
  destruct (bool_decide (size ≠ segmentSize)); [done|]. injection Hok as <- _.
  cbn [compositionOf PC_PaletteUpdate PC_CompositionState].
  by rewrite (ldiff_0_land _ _ Hflag).
Qed.

(** X9. A presentation composition segment is decoded only under a body
    size of 11 + 8 k, where k lies between the number of objects the
    segment declares and twice that number; so never under a body size
    above 4091. *)
Theorem readPresentationComposition_size_bounds (segmentSize : Z) (s : Source)
    (pc : PresentationComposition) (s' : Source) :
  readPresentationComposition segmentSize s = (Ok pc, s') →
  ∃ k, segmentSize = 11 + 8 * k
       ∧ pcs_ObjectCount (nextPcs s) ≤ k ≤ 2 * pcs_ObjectCount (nextPcs s)
       ∧ segmentSize ≤ 4091.
Proof.
  intros Hok.
  destruct (readPresentationComposition_ok _ _ _ _ Hok) as (Hlen & Hstate & Hflag).
  rewrite readPresentationComposition_objects in Hok by done.
  destruct (readCompositionObjects _ _ _ _ _ _) as [[[objects size]|e| |] s2] eqn:Hloop;
    try done.
  case_bool_decide as Hsize; [done|].
  assert (size = segmentSize) as ->.
  { destruct (decide (size = segmentSize)); [done|by destruct Hsize]. }
  apply readCompositionObjects_ok in Hloop as (new & _ & Hnew & -> & _).
  assert (0 ≤ pcs_ObjectCount (nextPcs s) < 256) by apply at8_range.
  pose proof (length_filter (λ o, cropped o = true) new) as Hfilter.
  exists (pcs_ObjectCount (nextPcs s) + Z.of_nat (length (filter (λ o, cropped o = true) new))).
  lia.
Qed.

Lemma paletteBody_ids n : ∀ d x, x ∈ Entry_ID <$> paletteBody n d → 0 ≤ x < 256.
Proof.
  induction n as [|n IH]; intros d x; cbn [paletteBody fmap list_fmap].
  - by intros ?%elem_of_nil.
  - intros [->|Hx]%elem_of_cons; [apply at8_range|by eapply IH].
Qed.

(** X10. A decoded palette has at most 256 entries, since an entry ID is
    one byte and no ID occurs twice; a palette segment is therefore never
    decoded under a body size above 1282. *)
Theorem readPalette_at_most_256 (segmentSize : Z) (s : Source) (p : Palette) (s' : Source) :
  readPalette segmentSize s = (Ok p, s') →
  (length (Palette_Entries p) ≤ 256)%nat
  ∧ (0 ≤ segmentSize < 65536 → segmentSize ≤ 1282).
Proof.
  unfold readPalette. case_bool_decide as Hmod; [done|].
  assert (Hmod' : segmentSize mod 5 = 2).
  { destruct (decide (segmentSize mod 5 = 2)); [done|by destruct Hmod]. }
  unfold bind at 1. destruct (binary_Read 2 decode_pds s) as [[w|e| |] s1]; try done.
  unfold bind.
  destruct (readPaletteEntries _ _ _ _ _ s1) as [[r|e| |] s2] eqn:Hloop; try done.
  intros [= <- _]. cbn [Palette_Entries].
  apply readPaletteEntries_ok in Hloop as Hnew. destruct Hnew as (new & Hr & Hlen & Hnodup & _).
  apply readPaletteEntries_consumes in Hloop as (_ & Hbody & _).
  rewrite Hr in *. cbn [app] in *. subst new.
  assert (Hsub : (Entry_ID <$> paletteBody (Z.to_nat (paletteCount segmentSize)) (data s1))
                 ⊆+ seqZ 0 256).
  { apply NoDup_submseteq; [done|]. intros x Hx%paletteBody_ids. apply elem_of_seqZ. lia. }
  apply submseteq_length in Hsub. rewrite length_fmap, length_seqZ in Hsub.
  split; [lia|]. intros Hrange.
  destruct (paletteCount_exact segmentSize Hrange Hmod') as [Hn Hpos].
  pose proof (Z.div_mod (segmentSize - 2) 5 ltac:(lia)) as Hdm.
  assert ((segmentSize - 2) mod 5 = 0) by (by rewrite Zminus_mod, Hmod').
  rewrite Hlen, Hn in Hsub. lia.
Qed.

(** ** Object segments *)

(** X11. An object record whose sequence flag has a bit outside
    [firstInSequence] and [lastInSequence] is refused with the flag, before
    its data length is looked at and before any byte of a payload is read. *)
Theorem readObject_sequence_flag (segmentSize : Z) (s : Source) :
  (11 ≤ length (data s))%nat →
  Z.ldiff (ods_SequenceFlag (nextOds s)) (Z.lor firstInSequence lastInSequence) ≠ 0 →
  readObject segmentSize s
    = (Err (ErrSequenceFlag (ods_SequenceFlag (nextOds s))), advance 11 s)
  ∧ data (advance 11 s) = drop 11 (data s).
Proof.
  intros Hlen Hflag. split; [|done]. unfold readObject, bind at 1.
  rewrite binary_Read_ok by done. fold (nextOds s). by rewrite bool_decide_eq_true_2.
Qed.

(** X12. The payload of an object segment from a source that reports its
    end on a call of [Read] that delivers nothing: however the source
    splits the bytes over its calls, zero-length reads included, the payload
    is the total data length − 4 bytes behind the object record if the
    source holds them, and the call fails with the error of the source if
    the source holds fewer. *)
Theorem readObject_payload_short_reads (segmentSize : Z) (s : Source) :
  (11 ≤ length (data s))%nat →
  Z.ldiff (ods_SequenceFlag (nextOds s)) (Z.lor firstInSequence lastInSequence) = 0 →
  4 ≤ totalDataLength s →
  eager s = false →
  let n := Z.to_nat (totalDataLength s - 4) in
  fst (readObject segmentSize s) =
    if decide (length (data s) < 11 + n)%nat then Err (term s)
    else Ok (objectOf (nextOds s) (take n (drop 11 (data s)))).
Proof.
  intros Hlen Hflag Htotal Hlazy n. rewrite readObject_payload by done. fold n.
  rewrite Hlazy, data_advance, length_drop. cbn [andb fst]. rewrite orb_false_r.
  destruct (Nat.eqb_spec n 0) as [Hn|Hn].
  - rewrite decide_False by lia. by rewrite Hn, take_0.
  - by destruct (Nat.ltb_spec (length (data s) - 11) n);
      [rewrite decide_True by lia|rewrite decide_False by lia].
Qed.

(** ** The errors of [ReadSegment] *)

(** X13. Every error of [ReadSegment] tells where it arose: it is io.EOF
    itself, or an error of the header read wrapped as such and other than
    io.EOF, or the error of the magic number or of the type tag with the
    value read, or an error of the body parser wrapped with the kind of the
    segment. An end marker gives no error behind its header. *)
Theorem ReadSegment_error_kinds (s : Source) (e : error) (s' : Source) :
  ReadSegment s = (Err e, s') →
  let t := h_SegmentType (nextHeader s) in
  (e = io_EOF ∧ data s = [])
  ∨ (∃ e', e = ErrSegmentHeader e' ∧ e' ≠ io_EOF ∧ (length (data s) < 13)%nat)
  ∨ (e = ErrMagicNumber (h_MagicNumber (nextHeader s))
     ∧ h_MagicNumber (nextHeader s) ≠ 0x5047)
  ∨ (e = ErrSegmentType t ∧ knownType t = false)
  ∨ (∃ e', e = segmentError t e'
           ∧ (t = pcsType ∨ t = wdsType ∨ t = pdsType ∨ t = odsType)).
Proof.
  intros Herr t.
  destruct (Nat.le_gt_cases 13 (length (data s))) as [Hlen|Hlen]; cycle 1.
  { rewrite ReadSegment_short in Herr by done. injection Herr as <- _.
    case_bool_decide as Heof.
    - left. split; [done|]. destruct (data s) eqn:Hd; [done|].
      exfalso. apply (shortRead_not_EOF s); [by rewrite Hd|done].
    - right. left. by eexists. }
  destruct (decide (h_MagicNumber (nextHeader s) = 0x5047)) as [Hmagic|Hmagic]; cycle 1.
  { rewrite ReadSegment_bad_magic in Herr by done. injection Herr as <- _. by do 2 right; left. }
  destruct (knownType t) eqn:Hknown; cycle 1.
  { rewrite ReadSegment_bad_type in Herr by done. injection Herr as <- _.
    by do 3 right; left. }
  do 4 right. rewrite ReadSegment_dispatch in Herr by done. fold t in Herr.
  unfold segmentError, bind, wrap, ret in Herr |- *.
  repeat (case_bool_decide;
          [match type of Herr with
           | context [?m (advance 13 s)] =>
               destruct (m (advance 13 s)) as [[a|e0| |] s0]; try done;
               injection Herr as <- _; eexists; split; [done|tauto]
           end|]).
  done.
Qed.

(** ** Reading one segment after another *)

Lemma keepsEnd_ret {A} (a : A) : keepsEnd (ret a).
Proof. by intros s. Qed.

Lemma keepsEnd_fail {A} e : keepsEnd (@fail A e).
Proof. by intros s. Qed.

Lemma keepsEnd_bind {A B} (m : M A) (f : A → M B) :
  keepsEnd m → (∀ a, keepsEnd (f a)) → keepsEnd (bind m f).
Proof.
  intros Hm Hf s. unfold bind. destruct (Hm s) as [He Ht].
  destruct (m s) as [[a|e| |] s1]; try done.
  destruct (Hf a s1) as [He' Ht']. simpl in *. by rewrite He', Ht'.
Qed.

Lemma keepsEnd_wrap {A} (w : error → error) (m : M A) : keepsEnd m → keepsEnd (wrap w m).
Proof. intros Hm s. unfold wrap. destruct (Hm s). by destruct (m s) as [[a|e| |] s1]. Qed.

Lemma keepsEnd_binary_Read {A} size (decode : list byte → A) :
  keepsEnd (binary_Read size decode).
Proof. intros s. by destruct (binary_Read_cases size decode s) as [[_ ->]|[_ ->]]. Qed.

Lemma keepsEnd_readData n : keepsEnd (readData n).
Proof. intros s. by rewrite readData_spec. Qed.

Lemma keepsEnd_readCompositionObjects todo : ∀ i count objects size,
  keepsEnd (readCompositionObjects todo i count objects size).
Proof.
  induction todo as [|todo IH]; intros i count objects size; [apply keepsEnd_ret|].
  cbn [readCompositionObjects]. apply keepsEnd_bind; [|by intros [o size']].
  unfold readCompositionObject. apply keepsEnd_bind.
  { apply keepsEnd_wrap, keepsEnd_binary_Read. }
  intros obj. destruct (bool_decide (Z.ldiff _ _ ≠ 0)); [apply keepsEnd_fail|].
  destruct (bool_decide (pco_ObjectCropped obj = croppedForce)); [|apply keepsEnd_ret].
  apply keepsEnd_bind; [apply keepsEnd_binary_Read|]. intros crop. apply keepsEnd_ret.
Qed.

Lemma keepsEnd_readWindowList todo : ∀ windows, keepsEnd (readWindowList todo windows).
Proof.
  induction todo as [|todo IH]; intros windows; [apply keepsEnd_ret|].
  cbn [readWindowList]. apply keepsEnd_bind; [apply keepsEnd_binary_Read|done].
Qed.

Lemma keepsEnd_readPaletteEntries todo : ∀ i n entries (ids : gset Z),
  keepsEnd (readPaletteEntries todo i n entries ids).
Proof.
  induction todo as [|todo IH]; intros i n entries ids; [apply keepsEnd_ret|].
  cbn [readPaletteEntries]. apply keepsEnd_bind.
  { apply keepsEnd_wrap, keepsEnd_binary_Read. }
  intros e. destruct (bool_decide (Entry_ID e ∈ ids)); [apply keepsEnd_fail|done].
Qed.

Lemma keepsEnd_ReadSegment : keepsEnd ReadSegment.
Proof.
  unfold ReadSegment. apply keepsEnd_bind.
  { apply keepsEnd_wrap, keepsEnd_binary_Read. }
  intros h. destruct (bool_decide (h_MagicNumber h ≠ _)); [apply keepsEnd_fail|].
  destruct (negb _); [apply keepsEnd_fail|].
  destruct (bool_decide (h_SegmentType h = pcsType)).
  { apply keepsEnd_bind; [apply keepsEnd_wrap|intros ?; apply keepsEnd_ret].
    unfold readPresentationComposition. apply keepsEnd_bind; [apply keepsEnd_binary_Read|].
    intros p. destruct (negb _); [apply keepsEnd_fail|].
    destruct (bool_decide (Z.ldiff _ _ ≠ 0)); [apply keepsEnd_fail|].
    apply keepsEnd_bind; [apply keepsEnd_readCompositionObjects|].
    intros [objects size]. destruct (bool_decide (size ≠ _));
      [apply keepsEnd_fail|apply keepsEnd_ret]. }
  destruct (bool_decide (h_SegmentType h = wdsType)).
  { apply keepsEnd_bind; [apply keepsEnd_wrap|intros ?; apply keepsEnd_ret].
    unfold readWindows. apply keepsEnd_bind; [apply keepsEnd_binary_Read|].
    intros w. destruct (bool_decide _); [apply keepsEnd_fail|apply keepsEnd_readWindowList]. }
  destruct (bool_decide (h_SegmentType h = pdsType)).
  { apply keepsEnd_bind; [apply keepsEnd_wrap|intros ?; apply keepsEnd_ret].
    unfold readPalette. destruct (bool_decide _); [apply keepsEnd_fail|].
    apply keepsEnd_bind; [apply keepsEnd_binary_Read|].
    intros p. apply keepsEnd_bind; [apply keepsEnd_readPaletteEntries|].
    intros entries. apply keepsEnd_ret. }
  destruct (bool_decide (h_SegmentType h = odsType)).
  { apply keepsEnd_bind; [apply keepsEnd_wrap|intros ?; apply keepsEnd_ret].
    unfold readObject. apply keepsEnd_bind; [apply keepsEnd_binary_Read|].
    intros o. destruct (bool_decide (Z.ldiff _ _ ≠ 0)); [apply keepsEnd_fail|].
    destruct (bool_decide (_ < 0)); [apply keepsEnd_fail|].
    apply keepsEnd_bind; [apply keepsEnd_readData|]. intros d. apply keepsEnd_ret. }
  destruct (bool_decide (h_SegmentType h = endType)); [apply keepsEnd_ret|]. by intros s.
Qed.

(** X3. A decoded segment has consumed the header and exactly the bytes of
    its body, all of which the source held: the declared body size for a
    presentation composition, a window or a palette segment, the object
    record and the payload for an object segment, nothing for an end marker.
    Segments are thus read one after another: the next call returns what a
    first call returns on a source that starts behind those bytes, whatever
    the reads of this call were like. *)
Theorem ReadSegment_consumes (s : Source) (seg : Segment) (s' : Source) :
  ReadSegment s = (Ok seg, s') →
  0 ≤ bodyLength s
  ∧ (Z.to_nat (13 + bodyLength s) ≤ length (data s))%nat
  ∧ data s' = drop (Z.to_nat (13 + bodyLength s)) (data s)
  ∧ ∀ sched', fst (ReadSegment s')
              = fst (ReadSegment (mkSource (drop (Z.to_nat (13 + bodyLength s)) (data s))
                                           sched' (eager s) (term s))).
Proof.
  intros Hok.
  pose proof (keepsEnd_ReadSegment s) as [He Ht]. rewrite Hok in He, Ht. cbn [snd] in He, Ht.
  cut (0 ≤ bodyLength s
       ∧ (Z.to_nat (13 + bodyLength s) ≤ length (data s))%nat
       ∧ data s' = drop (Z.to_nat (13 + bodyLength s)) (data s)).
  { intros (Hpos & Hheld & Hdata). split_and!; [done..|].
    intros sched'. by apply respects_ReadSegment. }
  clear He Ht.
  destruct (Nat.le_gt_cases 13 (length (data s))) as [Hlen|Hlen]; cycle 1.
  { by rewrite ReadSegment_short in Hok. }
  destruct (decide (h_MagicNumber (nextHeader s) = 0x5047)) as [Hmagic|Hmagic]; cycle 1.
  { by rewrite ReadSegment_bad_magic in Hok. }
  destruct (knownType (h_SegmentType (nextHeader s))) eqn:Hknown; cycle 1.
  { by rewrite ReadSegment_bad_type in Hok. }
  rewrite ReadSegment_dispatch in Hok by done. unfold bodyLength.
  pose proof (be16_range (take 13 (data s)) 11) as Hrange.
  change (be16 (take 13 (data s)) 11) with (h_SegmentSize (nextHeader s)) in Hrange.
  unfold bind, wrap in Hok.
  destruct (bool_decide (h_SegmentType (nextHeader s) = pcsType)).
  { destruct (readPresentationComposition _ _) as [[pc|e| |] s1] eqn:Hbody; try done.
    injection Hok as _ <-.
    apply readPresentationComposition_consumes in Hbody as (Hle & Hlen' & ->).
    rewrite length_data_advance in Hlen'. rewrite data_advance, drop_drop. cbn [orb].
    split_and!; [lia|lia|f_equal; lia]. }
  destruct (bool_decide (h_SegmentType (nextHeader s) = wdsType)).
  { destruct (readWindows _ _) as [[ws|e| |] s1] eqn:Hbody; try done.
    injection Hok as _ <-.
    apply readWindows_consumes in Hbody as (Hle & Hlen' & -> & _).
    rewrite length_data_advance in Hlen'. rewrite data_advance, drop_drop. cbn [orb].
    split_and!; [lia|lia|f_equal; lia]. }
  destruct (bool_decide (h_SegmentType (nextHeader s) = pdsType)).
  { destruct (readPalette _ _) as [[p|e| |] s1] eqn:Hbody; try done.
    injection Hok as _ <-.
    apply readPalette_consumes in Hbody as (Hlen' & -> & _); [|done].
    rewrite length_data_advance in Hlen'. rewrite data_advance, drop_drop. cbn [orb].
    split_and!; [lia|lia|f_equal; lia]. }
  cbn [orb].
  destruct (bool_decide (h_SegmentType (nextHeader s) = odsType)).
  { destruct (readObject _ _) as [[o|e| |] s1] eqn:Hbody; try done.
    injection Hok as _ <-.
    apply readObject_consumes in Hbody as (Hle & Hlen' & ->).
    rewrite length_data_advance in Hlen'. rewrite data_advance, drop_drop.
    split_and!; [lia|lia|f_equal; lia]. }
  injection Hok as _ <-. split_and!; [lia|simpl; lia|done].
Qed.

(** ** A presentation composition the source ends in *)

Lemma objectsLength_S n d :
  objectsLength (S n) d =
    if bool_decide (pco_ObjectCropped (decode_pcsCompositionObject (take 8 d)) = croppedForce)
    then (16 + objectsLength n (drop 16 d))%nat
    else (8 + objectsLength n (drop 8 d))%nat.
Proof.
  unfold objectsLength. cbn [objectRecords].
  destruct (bool_decide _).
  - rewrite filter_cons_True by done. cbn [length]. lia.
  - rewrite filter_cons_False by done. lia.
Qed.

(** The object loop on a source that holds [j] object records with their
    crop records and ends in the next one: the loop fails with the error of
    the read that fell short, with the number of the object if the source
    ends in its object record, and as it is if the source ends in its crop
    record. *)
Lemma readCompositionObjects_truncated j : ∀ todo i count objects size s,
  (j < todo)%nat →
  Forall (λ f, Z.ldiff f croppedForce = 0) (objectFlags todo (data s)) →
  (objectsLength j (data s) ≤ length (data s))%nat →
  let rest := (length (data s) - objectsLength j (data s))%nat in
  let obj := decode_pcsCompositionObject (take 8 (drop (objectsLength j (data s)) (data s))) in
  (rest < 8 ∨ pco_ObjectCropped obj = croppedForce ∧ rest < 16)%nat →
  fst (readCompositionObjects todo i count objects size s)
    = Err (if decide (rest < 8)%nat
           then ErrCompositionObject (Z.of_nat (i + j) + 1) count (shortReadAt rest (term s))
           else shortReadAt (rest - 8) (term s)).
Proof.
  induction j as [|j IH]; intros [|todo] i count objects size s Hj; try lia.
  - change (objectsLength 0 (data s)) with 0%nat. rewrite Nat.sub_0_r, drop_0.
    intros Hflags _. cbv zeta. intros Hrest. cbn [readCompositionObjects]. unfold bind at 1.
    destruct (decide (length (data s) < 8)%nat) as [Hshort|Hlen].
    + unfold readCompositionObject, bind at 1, wrap.
      rewrite binary_Read_short by done. cbn [fst].
      rewrite Nat.add_0_r, (shortRead_shortReadAt 8) by lia.
      by rewrite Nat.mod_small by done.
    + destruct Hrest as [|[Hforce Hrest]]; [lia|].
      cbn [objectFlags] in Hflags.
      destruct (Nat.ltb_spec (length (data s)) 8); [lia|].
      apply Forall_cons in Hflags as [Hlegal _].
      rewrite readCompositionObject_spec by lia. fold (nextObject s) in Hlegal, Hforce.
      rewrite bool_decide_eq_false_2 by (intros Hn; by apply Hn).
      rewrite bool_decide_eq_true_2 by done. unfold bind at 1.
      rewrite binary_Read_short by (rewrite length_data_advance; lia). cbn [fst]. f_equal.
      rewrite (shortRead_shortReadAt 8) by (rewrite ?length_data_advance; lia).
      rewrite length_data_advance, term_advance. by rewrite Nat.mod_small by lia.
  - rewrite objectsLength_S. cbn [objectFlags]. fold (nextObject s).
    intros Hflags Hheld. cbv zeta.
    assert (Hlen : (8 ≤ length (data s))%nat) by (destruct (bool_decide _); lia).
    destruct (Nat.ltb_spec (length (data s)) 8); [lia|].
    apply Forall_cons in Hflags as [Hlegal Hflags].
    cbn [readCompositionObjects]. unfold bind at 1.
    rewrite readCompositionObject_spec by done.
    rewrite (bool_decide_eq_false_2 (Z.ldiff _ _ ≠ 0)) by (intros Hn; by apply Hn).
    replace (Z.of_nat (i + S j)) with (Z.of_nat (S i + j)) by lia.
    destruct (bool_decide (pco_ObjectCropped (nextObject s) = croppedForce)).
    + destruct (Nat.ltb_spec (length (data s)) 16); [lia|].
      assert (Hlen8 : (8 ≤ length (data (advance 8 s)))%nat)
        by (rewrite length_data_advance; lia).
      unfold bind at 1.
      rewrite (binary_Read_ok 8 decode_CompositionObjectCrop (advance 8 s) Hlen8).
      cbn [ret]. intros Hrest.
      pose proof (IH todo (S i) count
                    (objects ++ [compositionObjectOf (nextObject s)
                       (Some (decode_CompositionObjectCrop (take 8 (data (advance 8 s)))))])
                    (size + 8 + 8) (advance 8 (advance 8 s))) as Hloop.
      rewrite !data_advance, drop_drop, term_advance in Hloop.
      change (8 + 8)%nat with 16%nat in Hloop. rewrite length_drop, drop_drop in Hloop.
      replace (length (data s) - 16 - objectsLength j (drop 16 (data s)))%nat
        with (length (data s) - (16 + objectsLength j (drop 16 (data s))))%nat in Hloop by lia.
      apply Hloop; [lia|done|lia|done].
    + intros Hrest.
      pose proof (IH todo (S i) count (objects ++ [compositionObjectOf (nextObject s) None])
                    (size + 8) (advance 8 s)) as Hloop.
      rewrite !data_advance, term_advance, length_drop, drop_drop in Hloop.
      replace (length (data s) - 8 - objectsLength j (drop 8 (data s)))%nat
        with (length (data s) - (8 + objectsLength j (drop 8 (data s))))%nat in Hloop by lia.
      apply Hloop; [lia|done|lia|done].
Qed.

(** X14. A presentation composition segment with legal values that the
    source ends in, behind [j] whole objects: if the source ends in the
    object record of the next object, the error of the read is wrapped with
    the number of that object and the declared count; if it ends in the
    crop record of that object, the error of the read is returned as it
    is, which is io.EOF itself when the source ends right behind the
    object record. *)
Theorem readPresentationComposition_truncated (segmentSize : Z) (s : Source) (j : nat) :
  (11 ≤ length (data s))%nat →
  legalState (pcs_CompositionState (nextPcs s)) →
  Z.ldiff (pcs_PaletteUpdateFlag (nextPcs s)) pufTrue = 0 →
  let count := Z.to_nat (pcs_ObjectCount (nextPcs s)) in
  let d := drop 11 (data s) in
  Forall (λ f, Z.ldiff f croppedForce = 0) (objectFlags count d) →
  (j < count)%nat →
  (objectsLength j d ≤ length d)%nat →
  let rest := (length d - objectsLength j d)%nat in
  let obj := decode_pcsCompositionObject (take 8 (drop (objectsLength j d) d)) in
  (rest < 8 ∨ pco_ObjectCropped obj = croppedForce ∧ rest < 16)%nat →
  fst (readPresentationComposition segmentSize s)
    = Err (if decide (rest < 8)%nat
           then ErrCompositionObject (Z.of_nat j + 1) (pcs_ObjectCount (nextPcs s))
                  (shortReadAt rest (term s))
           else shortReadAt (rest - 8) (term s)).
Proof.
  intros Hlen Hstate Hflag count d Hflags Hj Hheld rest obj Hrest.
  rewrite readPresentationComposition_objects by done.
  pose proof (readCompositionObjects_truncated j count 0 (pcs_ObjectCount (nextPcs s)) [] 11
                (advance 11 s) Hj Hflags Hheld Hrest) as Hloop.
  cbn [Nat.add] in Hloop. rewrite data_advance, term_advance in Hloop.
  fold count. destruct (readCompositionObjects _ _ _ _ _ _) as [r s2].
  cbn [fst] in Hloop. by rewrite Hloop.
Qed.

End FurtherProperties.

(** * The further properties on concrete streams *)

(** [objectStream] followed by [endStream]: the object segment takes 13 + 7
    + 6 bytes, and the next call returns the end marker. *)
Lemma ReadSegment_consumes_witness :
  @bodyLength PGS (bytesReader (objectStream ++ endStream)) = 13
  ∧ data (snd (@ReadSegment PGS (bytesReader (objectStream ++ endStream)))) = endStream
  ∧ fst (@ReadSegment PGS (snd (@ReadSegment PGS (bytesReader (objectStream ++ endStream)))))
    = Ok {| PresentationTime := 1000000; DecodingTime := 1000000; Data := DataNil |}.
Proof.
  destruct (@ReadSegment PGS (bytesReader (objectStream ++ endStream))) as [r s'] eqn:Hrun.
  assert (Hok : ∃ seg, r = Ok seg) by (vm_compute in Hrun; injection Hrun as <- _; by eexists).
  destruct Hok as [seg ->].
  destruct (@ReadSegment_consumes PGS _ _ _ Hrun) as (_ & _ & Hdata & Hnext).
  split; [reflexivity|]. split; [exact Hdata|].
  cbn [snd]. rewrite (Hnext []). reflexivity.
Defined.

(** [windowBody] in full, and cut behind 4 bytes of its window record. *)
Lemma readWindows_records_witness :
  fst (readWindows 10 (bytesReader windowBody))
    = Ok [{| Window_ID := 0; Window_X := 16; Window_Y := 32;
             Window_Width := 48; Window_Height := 64 |}]
  ∧ fst (readWindows 10 (bytesReader (take 5 windowBody))) = Err io_ErrUnexpectedEOF.
Proof.
  split.
  - rewrite (readWindows_records 10 (bytesReader windowBody));
      [reflexivity|vm_compute; lia|reflexivity].
  - rewrite (readWindows_records 10 (bytesReader (take 5 windowBody)));
      [reflexivity|vm_compute; lia|reflexivity].
Defined.

(** [paletteOne] under the body size 7. *)
Lemma readPalette_decodes_witness :
  fst (readPalette 7 (bytesReader paletteOne))
    = Ok {| Palette_ID := 1; Palette_Version := 2;
            Palette_Entries := [{| Entry_ID := 5; Entry_Y := 16; Entry_Cr := 32;
                                   Entry_Cb := 48; Entry_A := 64 |}] |}.
Proof.
  rewrite (readPalette_decodes 7 (bytesReader paletteOne));
    [reflexivity|lia|reflexivity|vm_compute; lia|].
  apply (bool_decide_unpack _). by vm_compute.
Defined.

(** A palette segment of two entries that the source ends in, 2 bytes into
    the second entry. *)
Lemma readPalette_truncated_witness :
  fst (readPalette 12 (bytesReader [x01; x02; x05; x10; x20; x30; x40; x06; x11]))
    = Err (ErrPaletteEntry 1 2 io_ErrUnexpectedEOF).
Proof.
  rewrite (readPalette_truncated 12
             (bytesReader [x01; x02; x05; x10; x20; x30; x40; x06; x11]));
    [reflexivity|lia|reflexivity|vm_compute; lia|].
  apply (bool_decide_unpack _). by vm_compute.
Defined.

(** [croppedBody] under the body size 27. *)
Lemma readPresentationComposition_decodes_witness :
  fst (@readPresentationComposition PGS 27 (bytesReader croppedBody))
    = Ok {| PC_Width := 1920; PC_Height := 1080; PC_FrameRate := 16;
            PC_CompositionNumber := 1; PC_CompositionState := 128;
            PC_PaletteUpdate := false; PC_PaletteID := 0;
            PC_Objects :=
              [{| CO_ObjectID := 0; CO_WindowID := 0; CO_X := 16; CO_Y := 32;
                  CO_Crop := Some {| Crop_X := 1; Crop_Y := 2; Crop_Width := 48;
                                     Crop_Height := 64 |} |}] |}.
Proof.
  rewrite (@readPresentationComposition_decodes PGS 27 (bytesReader croppedBody));
    [reflexivity|vm_compute; lia|right; right; reflexivity|reflexivity| |reflexivity
    |vm_compute; lia].
  apply (bool_decide_unpack _). by vm_compute.
Defined.

(** A presentation composition with the palette update flag 0x80. *)
Lemma readPresentationComposition_PaletteUpdate_witness :
  pcs_PaletteUpdateFlag
    (nextPcs (bytesReader [x07; x80; x04; x38; x10; x00; x01; x80; x80; x00; x00])) = 0x80
  ∧ ∃ pc s', @readPresentationComposition PGS 11
               (bytesReader [x07; x80; x04; x38; x10; x00; x01; x80; x80; x00; x00])
             = (Ok pc, s')
             ∧ PC_PaletteUpdate pc = true.
Proof.
  split; [reflexivity|].
  destruct (@readPresentationComposition PGS 11
              (bytesReader [x07; x80; x04; x38; x10; x00; x01; x80; x80; x00; x00]))
    as [r s'] eqn:Hrun.
  assert (Hok : ∃ pc, r = Ok pc) by (vm_compute in Hrun; injection Hrun as <- _; by eexists).
  destruct Hok as [pc ->]. exists pc, s'. split; [reflexivity|].
  destruct (@readPresentationComposition_PaletteUpdate PGS _ _ _ _ Hrun) as (Hpu & _).
  rewrite Hpu. reflexivity.
Defined.

(** [croppedBody]: one object, 11 + 8 × 2 bytes. *)
Lemma readPresentationComposition_size_bounds_witness :
  ∃ k, 27 = 11 + 8 * k ∧ 1 ≤ k ≤ 2 ∧ 27 ≤ 4091.
Proof.
  destruct (@readPresentationComposition PGS 27 (bytesReader croppedBody))
    as [r s'] eqn:Hrun.
  assert (Hok : ∃ pc, r = Ok pc) by (vm_compute in Hrun; injection Hrun as <- _; by eexists).
  destruct Hok as [pc ->].
  exact (@readPresentationComposition_size_bounds PGS _ _ _ _ Hrun).
Defined.

(** [paletteOne]: one entry. *)
Lemma readPalette_at_most_256_witness :
  ∃ p s', readPalette 7 (bytesReader paletteOne) = (Ok p, s')
          ∧ (length (Palette_Entries p) ≤ 256)%nat.
Proof.
  destruct (readPalette 7 (bytesReader paletteOne)) as [r s'] eqn:Hrun.
  assert (Hok : ∃ p, r = Ok p) by (vm_compute in Hrun; injection Hrun as <- _; by eexists).
  destruct Hok as [p ->]. exists p, s'. split; [reflexivity|].
  exact (proj1 (readPalette_at_most_256 _ _ _ _ Hrun)).
Defined.

(** An object record with the sequence flag 0x01 and a total data length
    of 2. *)
Lemma readObject_sequence_flag_witness :
  @readObject PGS 11 (bytesReader [x00; x01; x00; x01; x00; x00; x02; x00; x01; x00; x01])
    = (Err (ErrSequenceFlag 0x01), bytesReader []).
Proof.
  exact (proj1 (@readObject_sequence_flag PGS 11
                  (bytesReader [x00; x01; x00; x01; x00; x00; x02; x00; x01; x00; x01])
                  ltac:(vm_compute; lia) ltac:(by vm_compute))).
Defined.

(** The object record and the payload of [objectStream] from a source that
    splits them over reads of 3, 0, 1, 20 and 1 bytes. *)
Lemma readObject_payload_short_reads_witness :
  fst (@readObject PGS 13 (mkSource (drop 13 objectStream) [3; 0; 1; 20; 1]%nat false io_EOF))
    = Ok {| Object_ID := 1; Object_Version := 0; Object_First := true; Object_Last := true;
            Object_Width := 1; Object_Height := 1; Object_ObjectData := [xaa; xbb] |}.
Proof.
  rewrite (@readObject_payload_short_reads PGS 13
             (mkSource (drop 13 objectStream) [3; 0; 1; 20; 1]%nat false io_EOF));
    [reflexivity|vm_compute; lia|reflexivity|by vm_compute|reflexivity].
Defined.

(** A header with the magic number 0x5048. *)
Lemma ReadSegment_error_kinds_witness :
  ∃ e s', @ReadSegment PGS (bytesReader [x50; x48; x00; x00; x00; x5a; x00; x00; x00; x5a;
                                         x80; x00; x00]) = (Err e, s')
          ∧ e = ErrMagicNumber 0x5048.
Proof.
  destruct (@ReadSegment PGS (bytesReader [x50; x48; x00; x00; x00; x5a; x00; x00; x00; x5a;
                                           x80; x00; x00])) as [r s'] eqn:Hrun.
  assert (Herr : ∃ e, r = Err e) by (vm_compute in Hrun; injection Hrun as <- _; by eexists).
  destruct Herr as [e ->]. exists e, s'. split; [reflexivity|].
  destruct (@ReadSegment_error_kinds PGS _ _ _ Hrun)
    as [[_ Hnil]|[(e' & _ & _ & Hlen)|[[He _]|[[_ Hknown]|(e' & _ & Htype)]]]].
  - discriminate Hnil.
  - vm_compute in Hlen. lia.
  - exact He.
  - discriminate Hknown.
  - vm_compute in Htype. lia.
Defined.

(** [croppedBody] cut right behind the object record of its object: the
    read of the crop record meets io.EOF, which is returned as it is. *)
Lemma readPresentationComposition_truncated_witness :
  fst (@readPresentationComposition PGS 27 (bytesReader (take 19 croppedBody))) = Err io_EOF
  ∧ fst (@readPresentationComposition PGS 27 (bytesReader (take 15 croppedBody)))
    = Err (ErrCompositionObject 1 1 io_ErrUnexpectedEOF).
Proof.
  split.
  - rewrite (@readPresentationComposition_truncated PGS 27
               (bytesReader (take 19 croppedBody)) 0);
      [reflexivity|vm_compute; lia|right; right; reflexivity|reflexivity
      | |vm_compute; lia|vm_compute; lia|right; split; [reflexivity|vm_compute; lia]].
    apply (bool_decide_unpack _). by vm_compute.
  - rewrite (@readPresentationComposition_truncated PGS 27
               (bytesReader (take 15 croppedBody)) 0);
      [reflexivity|vm_compute; lia|right; right; reflexivity|reflexivity
      | |vm_compute; lia|vm_compute; lia|left; vm_compute; lia].
    apply (bool_decide_unpack _). by vm_compute.
Defined.
